(** * Rest extraction from JSON event streams: a model of
      [scripts/01_extract_rests.py] and the properties of its pipeline.

    The script is a chain of pure functions over parsed JSON.  Each Python
    function is embedded below under its own name.

    Numbers.  A Python [float] is modelled by [pyfloat]: an exact rational,
    the two infinities, or NaN; every binary64 number is one of these, and
    comparisons are decided on the exact values, as binary64 decides them.
    The sum [pe + eps] in the merge test of [coalesce_intervals] is rounded
    as binary64 rounds it ([fadd64]: to nearest, ties to even, overflow to
    infinity), because there the rounding decides whether two intervals
    merge: [1.0 + 1e-9] is [1.000000001].  The other arithmetic on finite
    values is exact (its rounding and overflow are not modelled, and neither
    is the sign of zero); the special values follow IEEE 754 as Python
    exposes them (every comparison with NaN is false, [inf - inf] is NaN).
    Python's [json] accepts the literals [NaN], [Infinity] and [-Infinity],
    and [float("nan")] succeeds, so these values do reach the extraction
    code. *)

From Stdlib Require Import List Bool ZArith QArith Qabs Qround Lqa Lia.
From Stdlib Require Import String Ascii.
From Stdlib Require Import Permutation Sorted.
Import ListNotations.

Set Warnings "-register-all".

(* ================================================================== *)
(** ** Python floats *)
(* ================================================================== *)

Module PyFloat.

Inductive pyfloat : Type :=
| Fin (q : Q)
| PInf
| NInf
| NaN.

Definition is_nan (x : pyfloat) : bool :=
  match x with NaN => true | _ => false end.

Definition is_finite (x : pyfloat) : bool :=
  match x with Fin _ => true | _ => false end.

Definition Qltb (a b : Q) : bool :=
  match Qcompare a b with Lt => true | _ => false end.

Definition Qleb (a b : Q) : bool :=
  match Qcompare a b with Gt => false | _ => true end.

Definition Qeqb (a b : Q) : bool :=
  match Qcompare a b with Eq => true | _ => false end.

(** [x < y] *)
Definition fltb (x y : pyfloat) : bool :=
  match x, y with
  | NaN, _ | _, NaN => false
  | Fin a, Fin b => Qltb a b
  | NInf, NInf => false
  | NInf, _ => true
  | _, NInf => false
  | PInf, _ => false
  | Fin _, PInf => true
  end.

(** [x <= y] *)
Definition fleb (x y : pyfloat) : bool :=
  match x, y with
  | NaN, _ | _, NaN => false
  | Fin a, Fin b => Qleb a b
  | NInf, _ => true
  | _, PInf => true
  | PInf, _ => false
  | Fin _, NInf => false
  end.

(** [x == y] *)
Definition feqb (x y : pyfloat) : bool :=
  match x, y with
  | Fin a, Fin b => Qeqb a b
  | PInf, PInf => true
  | NInf, NInf => true
  | _, _ => false
  end.

(** [x + y] *)
Definition fadd (x y : pyfloat) : pyfloat :=
  match x, y with
  | NaN, _ | _, NaN => NaN
  | Fin a, Fin b => Fin (a + b)
  | PInf, NInf | NInf, PInf => NaN
  | PInf, _ | _, PInf => PInf
  | NInf, _ | _, NInf => NInf
  end.

(** [- x] *)
Definition fneg (x : pyfloat) : pyfloat :=
  match x with
  | Fin a => Fin (- a)
  | PInf => NInf
  | NInf => PInf
  | NaN => NaN
  end.

(** [x - y] *)
Definition fsub (x y : pyfloat) : pyfloat := fadd x (fneg y).

(** [abs(x)] *)
Definition fabs (x : pyfloat) : pyfloat :=
  match x with
  | Fin a => Fin (Qabs a)
  | PInf | NInf => PInf
  | NaN => NaN
  end.

(** The sign of a value as a comparison with zero; [None] for NaN. *)
Definition fsign (x : pyfloat) : option comparison :=
  match x with
  | Fin a => Some (Qcompare a 0)
  | PInf => Some Gt
  | NInf => Some Lt
  | NaN => None
  end.

(** [x * y] *)
Definition fmul (x y : pyfloat) : pyfloat :=
  match x, y with
  | Fin a, Fin b => Fin (a * b)
  | _, _ =>
      match fsign x, fsign y with
      | Some Gt, Some Gt | Some Lt, Some Lt => PInf
      | Some Gt, Some Lt | Some Lt, Some Gt => NInf
      | _, _ => NaN
      end
  end.

(** [x / y] for a finite non-zero divisor, the only kind the script uses
    (its one division is by the literal [2.0]).  Python raises
    [ZeroDivisionError] on a zero divisor; that case is given NaN here and is
    never reached. *)
Definition fdiv (x y : pyfloat) : pyfloat :=
  match y with
  | Fin b =>
      match Qcompare b 0 with
      | Eq => NaN
      | c =>
          match x with
          | Fin a => Fin (a / b)
          | PInf => match c with Gt => PInf | _ => NInf end
          | NInf => match c with Gt => NInf | _ => PInf end
          | NaN => NaN
          end
      end
  | PInf | NInf => match x with Fin _ => Fin 0 | _ => NaN end
  | NaN => NaN
  end.

(** Round half to even, to an integer. *)
Definition Qround_half_even (q : Q) : Z :=
  let f := Qfloor q in
  match Qcompare (q - inject_Z f) (1 # 2) with
  | Lt => f
  | Gt => (f + 1)%Z
  | Eq => if Z.even f then f else (f + 1)%Z
  end.

(** [2^k] *)
Definition pow2 (k : Z) : Q :=
  if (0 <=? k)%Z then inject_Z (2 ^ k) else 1 # Z.to_pos (2 ^ (- k)).

(** [floor(log2 |q|)], for [q] other than zero. *)
Definition binade (q : Q) : Z :=
  let k := (Z.log2 (Z.abs (Qnum q)) - Z.log2 (Zpos (Qden q)))%Z in
  if Qleb (pow2 k) (Qabs q) then k else (k - 1)%Z.

(** The binary64 number nearest to [q], ties to even: 53 significant bits,
    a spacing no finer than [2^-1074], and infinity once the rounded
    magnitude reaches [2^1024]. *)
Definition round64 (q : Q) : pyfloat :=
  match Qcompare q 0 with
  | Eq => Fin 0
  | c =>
      let e := Z.max (binade q - 52) (-1074) in
      let r := inject_Z (Qround_half_even (q / pow2 e)) * pow2 e in
      if Qleb (pow2 1024) (Qabs r)
      then match c with Gt => PInf | _ => NInf end
      else Fin (Qred r)
  end.

(** [x + y] as binary64 computes it: the exact sum, rounded. *)
Definition fadd64 (x y : pyfloat) : pyfloat :=
  match fadd x y with
  | Fin q => round64 q
  | v => v
  end.

(** [round(x, 6)]: the nearest multiple of [10^-6], ties to even. *)
Definition round6 (x : pyfloat) : pyfloat :=
  match x with
  | Fin a => Fin (Qred (Qround_half_even (a * 1000000) # 1000000))
  | _ => x
  end.

(** The builtin [max(a, b)]: it keeps [a] unless [b > a]. *)
Definition py_max (a b : pyfloat) : pyfloat :=
  if fltb a b then b else a.

End PyFloat.
Import PyFloat.

Arguments fadd64 : simpl never.

(** [EPS = 1e-9]: the literal denotes the binary64 number nearest to
    [10^-9], which is [4835703278458517 / 2^82]. *)
Definition EPS : pyfloat := Fin (4835703278458517 # 4835703278458516698824704).

(* ================================================================== *)
(** ** Parsed JSON *)
(* ================================================================== *)

(** What [json.load] returns.  A mapping keeps its insertion order, which
    [dict.values()] follows, so it is an association list; [None] is
    [JNull].  A Python mapping binds a key once; the properties below hold
    of every association list, those with a key repeated included. *)
Inductive json : Type :=
| JNull
| JBool (b : bool)
| JInt (z : Z)
| JFloat (f : pyfloat)
| JStr (s : string)
| JList (l : list json)
| JDict (d : list (string * json)).

Definition dict : Type := list (string * json).

(** [k in d] and [d[k]] / [d.get(k)] in one: the value bound to [k]. *)
Fixpoint dict_get (d : dict) (k : string) : option json :=
  match d with
  | [] => None
  | (k', v) :: rest => if String.eqb k k' then Some v else dict_get rest k
  end.

(** [d.values()] *)
Definition dict_values (d : dict) : list json := map snd d.

Definition is_dict (x : json) : bool :=
  match x with JDict _ => true | _ => false end.

Definition is_none (x : json) : bool :=
  match x with JNull => true | _ => false end.

(** [bool(x)] *)
Definition truthy (x : json) : bool :=
  match x with
  | JNull => false
  | JBool b => b
  | JInt z => negb (Z.eqb z 0)
  | JFloat f => negb (feqb f (Fin 0))
  | JStr s => negb (String.eqb s EmptyString)
  | JList l => match l with [] => false | _ => true end
  | JDict d => match d with [] => false | _ => true end
  end.

(** The coercions of the builtin [float] on a [str] are Python's own and are
    taken as given: [None] stands for the [ValueError] it raises. *)
Class PyBuiltins : Type := { float_of_str : string -> option pyfloat }.

(* ================================================================== *)
(** ** Event-list locator *)
(* ================================================================== *)

(** [isinstance(v, list) and (len(v) == 0 or isinstance(v[0], dict))] *)
Definition looks_like_events (v : json) : option (list json) :=
  match v with
  | JList [] => Some []
  | JList (JDict d :: rest) => Some (JDict d :: rest)
  | _ => None
  end.

Definition priority_keys : list string :=
  ["events"; "event_list"; "items"; "notes"; "data"; "sequence"; "segments"]%string.

(** The first loop of [find_event_list] over the priority keys. *)
Fixpoint find_by_key (obj : dict) (keys : list string) : option (list json) :=
  match keys with
  | [] => None
  | key :: rest =>
      match dict_get obj key with
      | Some v =>
          match looks_like_events v with
          | Some l => Some l
          | None => find_by_key obj rest
          end
      | None => find_by_key obj rest
      end
  end.

Fixpoint find_event_list (obj : json) : option (list json) :=
  match obj with
  | JList l => looks_like_events (JList l)
  | JDict d =>
      match find_by_key d priority_keys with
      | Some v => Some v
      | None =>
          (fix values (vs : dict) : option (list json) :=
             match vs with
             | [] => None
             | (_, v) :: rest =>
                 match v with
                 | JDict _ | JList _ =>
                     match find_event_list v with
                     | Some ev => Some ev
                     | None => values rest
                     end
                 | _ => values rest
                 end
             end) d
      end
  | _ => None
  end.

(* ================================================================== *)
(** ** Event classifier *)
(* ================================================================== *)

Fixpoint first_present (d : dict) (keys : list string) : json :=
  match keys with
  | [] => JNull
  | k :: rest =>
      match dict_get d k with
      | Some v => if is_none v then first_present d rest else v
      | None => first_present d rest
      end
  end.

(** [float(x)]; [None] when it raises ([TypeError], [ValueError], or
    [OverflowError] for an integer beyond the binary64 range). *)
Definition py_float `{PyBuiltins} (x : json) : option pyfloat :=
  match x with
  | JNull => None
  | JBool b => Some (if b then Fin 1 else Fin 0)
  | JInt z =>
      if (Z.abs z <? 2 ^ 1024 - 2 ^ 970)%Z then Some (Fin (inject_Z z)) else None
  | JFloat f => Some f
  | JStr s => float_of_str s
  | JList _ | JDict _ => None
  end.

Definition to_float `{PyBuiltins} (x : json) : option pyfloat :=
  match x with
  | JNull => None
  | _ => py_float x
  end.

Definition lower_ascii (c : ascii) : ascii :=
  let n := nat_of_ascii c in
  if andb (65 <=? n)%nat (n <=? 90)%nat then ascii_of_nat (n + 32) else c.

(** [t.lower()], on the bytes of the string: only ASCII letters change,
    which is all that matters for finding ["rest"]. *)
Fixpoint lower (s : string) : string :=
  match s with
  | EmptyString => EmptyString
  | String c rest => String (lower_ascii c) (lower rest)
  end.

(** [needle in s] *)
Fixpoint contains (needle s : string) : bool :=
  if String.prefix needle s then true
  else match s with
       | EmptyString => false
       | String _ rest => contains needle rest
       end.

Definition rest_flags : list string :=
  ["is_rest"; "isRest"; "rest"; "is_silence"; "silence"]%string.

Definition is_rest_event (ev : dict) : bool :=
  if existsb (fun k => match dict_get ev k with
                       | Some v => truthy v
                       | None => false
                       end) rest_flags
  then true
  else
    let t := first_present ev ["type"; "kind"; "event_type"; "eventType"; "name"]%string in
    if match t with JStr s => contains "rest" (lower s) | _ => false end
    then true
    else
      let pitch_like :=
        first_present ev ["pitch_midi"; "pitchMidi"; "pitch"; "pc"; "pitch_class"; "pitchClass"]%string in
      let pitches := first_present ev ["pitches"; "midi"; "midis"]%string in
      if is_none pitch_like
      then match pitches with JList [] => true | _ => false end
      else false.

Definition onset_keys : list string :=
  ["offset"; "off"; "onset"; "start"; "t"; "time"; "offset_q"; "onset_q"; "start_q"]%string.

Definition get_onset `{PyBuiltins} (ev : dict) : option pyfloat :=
  to_float (first_present ev onset_keys).

Definition get_dur `{PyBuiltins} (ev : dict) : option pyfloat :=
  match to_float (first_present ev
          ["dur_q"; "duration_q"; "dur"; "duration"; "ql"; "quarterLength"; "quarter_length"]%string) with
  | Some dur => Some dur
  | None =>
      match to_float (first_present ev ["dur_8"; "duration_8"; "eighth"; "eighths"]%string) with
      | Some dur8 => Some (fdiv dur8 (Fin 2))
      | None => None
      end
  end.

(* ================================================================== *)
(** ** Intervals and coalescing *)
(* ================================================================== *)

(** A [(start, end)] tuple. *)
Definition interval : Type := (pyfloat * pyfloat)%type.

(** [a < b] on the sort keys [(x[0], x[1])]: tuples compare at their first
    unequal position. *)
Definition key_lt (a b : interval) : bool :=
  if feqb (fst a) (fst b) then fltb (snd a) (snd b) else fltb (fst a) (fst b).

(** [sorted] is a stable sort that only asks [<] of the keys.  Whenever [<]
    orders the keys totally (no NaN among them) every stable sort returns the
    same list, and so does this insertion sort; a list of at most one element
    is returned as it is in any case. *)
Fixpoint insert (x : interval) (l : list interval) : list interval :=
  match l with
  | [] => [x]
  | y :: rest => if key_lt y x then y :: insert x rest else x :: y :: rest
  end.

Definition sorted (l : list interval) : list interval :=
  fold_right insert [] l.

(** One turn of the loop of [coalesce_intervals].  [out] is held newest
    first, so its head is [out[-1]].  The sum [pe + eps] of the test is the
    rounded one. *)
Definition coalesce_step (eps : pyfloat) (out : list interval) (cur : interval)
  : list interval :=
  match out with
  | (ps, pe) :: older =>
      let '(s, e) := cur in
      if fleb s (fadd64 pe eps) then (ps, py_max pe e) :: older
      else (s, e) :: out
  | [] => [cur]   (* never reached: [out] starts with one interval *)
  end.

Definition coalesce_intervals (intervals : list interval) (eps : pyfloat)
  : list interval :=
  match sorted intervals with
  | [] => []
  | first :: rest => rev (fold_left (coalesce_step eps) rest [first])
  end.

(* ================================================================== *)
(** ** Interval extractor *)
(* ================================================================== *)

(** The first loop of [extract_rest_intervals]. *)
Fixpoint explicit_rests `{PyBuiltins} (events : list json) : list interval :=
  match events with
  | [] => []
  | JDict ev :: rest =>
      if is_rest_event ev then
        match get_onset ev, get_dur ev with
        | Some onset, Some dur =>
            if fltb EPS dur then (onset, fadd onset dur) :: explicit_rests rest
            else explicit_rests rest
        | _, _ => explicit_rests rest
        end
      else explicit_rests rest
  | _ :: rest => explicit_rests rest
  end.

(** The second loop of [extract_rest_intervals]. *)
Fixpoint active_spans `{PyBuiltins} (events : list json) : list interval :=
  match events with
  | [] => []
  | JDict ev :: rest =>
      if is_rest_event ev then active_spans rest
      else
        match get_onset ev, get_dur ev with
        | Some onset, Some dur =>
            if fltb dur (Fin 0) then active_spans rest
            else (onset, fadd onset dur) :: active_spans rest
        | _, _ => active_spans rest
        end
  | _ :: rest => active_spans rest
  end.

(** The loop over [zip(active_spans, active_spans[1:])]. *)
Fixpoint inferred_gaps (spans : list interval) : list interval :=
  match spans with
  | (_, e1) :: (((s2, _) :: _) as later) =>
      if fltb EPS (fsub s2 e1) then (e1, s2) :: inferred_gaps later
      else inferred_gaps later
  | _ => []
  end.

(** The three [return] statements of [extract_rest_intervals]. *)
Inductive exit_point : Type :=
| ReturnExplicit    (* [return rest_intervals], before any inference *)
| ReturnNoActive    (* [return []], no active span *)
| ReturnInferred.   (* [return coalesce_intervals(inferred)] *)

Definition extract_rest_intervals_at `{PyBuiltins}
    (events : list json) (require_explicit : bool)
  : exit_point * list interval :=
  let rest_intervals := coalesce_intervals (explicit_rests events) EPS in
  if orb (match rest_intervals with [] => false | _ => true end) require_explicit
  then (ReturnExplicit, rest_intervals)
  else
    match active_spans events with
    | [] => (ReturnNoActive, [])
    | spans =>
        (ReturnInferred,
         coalesce_intervals (inferred_gaps (coalesce_intervals spans EPS)) EPS)
    end.

Definition extract_rest_intervals `{PyBuiltins}
    (events : list json) (require_explicit : bool) : list interval :=
  snd (extract_rest_intervals_at events require_explicit).

(* ================================================================== *)
(** ** Unit converter and validator *)
(* ================================================================== *)

Definition intervals_to_eighth_durations (rest_intervals_q : list interval)
  : list pyfloat :=
  map (fun '(s, e) => round6 (fmul (fsub e s) (Fin 2))) rest_intervals_q.

(** What [validate_expected] prints: the lengths of the [[WARN]] line when
    there is one, and the number of the [[CHECK]] line. *)
Record report : Type := { warning : option (nat * nat); max_err : pyfloat }.

(** [abs(got[i] - expected[i]) for i in indices]; [None] is the [IndexError]
    of a subscript out of range. *)
Fixpoint abs_errors (got expected : list pyfloat) (indices : list nat)
  : option (list pyfloat) :=
  match indices with
  | [] => Some []
  | i :: rest =>
      match nth_error got i, nth_error expected i with
      | Some g, Some x =>
          match abs_errors got expected rest with
          | Some errs => Some (fabs (fsub g x) :: errs)
          | None => None
          end
      | _, _ => None
      end
  end.

(** [max(items, default=d)] *)
Definition max_default (items : list pyfloat) (d : pyfloat) : pyfloat :=
  match items with
  | [] => d
  | first :: rest => fold_left py_max rest first
  end.

Definition validate_expected (got expected : list pyfloat) : option report :=
  let w := if Nat.eqb (List.length got) (List.length expected) then None
           else Some (List.length got, List.length expected) in
  let n := Nat.min (List.length got) (List.length expected) in
  match abs_errors got expected (seq 0 n) with
  | Some errs => Some {| warning := w; max_err := max_default errs (Fin 0) |}
  | None => None
  end.

(* ================================================================== *)
(** ** Vocabulary of the properties *)
(* ================================================================== *)

(** The invariant of an interval: [start <= end].  It rules NaN out of both
    ends. *)
Definition wf (iv : interval) : Prop := fleb (fst iv) (snd iv) = true.

Definition finite_interval (iv : interval) : Prop :=
  is_finite (fst iv) = true /\ is_finite (snd iv) = true.

Definition nan_free (iv : interval) : Prop :=
  is_nan (fst iv) = false /\ is_nan (snd iv) = false.

(** [a] comes no later than [b] in the order of the sort keys. *)
Definition key_le (a b : interval) : Prop := key_lt b a = false.

(** Key order between intervals free of NaN: on these it is a total
    preorder. *)
Definition ordered (a b : interval) : Prop :=
  nan_free a /\ nan_free b /\ key_le a b.

(** Neighbours in order of start. *)
Definition start_le (a b : interval) : Prop := fleb (fst a) (fst b) = true.

(** [b] starts beyond the end of [a] plus [eps], the sum being the one the
    merge test computes: on such a pair the test [s <= pe + eps] fails. *)
Definition apart (eps : pyfloat) (a b : interval) : Prop :=
  fltb (fadd64 (snd a) eps) (fst b) = true.

(** In the order of the sort key [(start, end)]. *)
Definition key_sorted (l : list interval) : Prop := Sorted key_le l.

(** Sorted by start, and every start beyond the previous end plus [eps]. *)
Definition starts_sorted (l : list interval) : Prop := Sorted start_le l.
Definition separated (eps : pyfloat) (l : list interval) : Prop :=
  Sorted (apart eps) l.

(** [big] contains [small]. *)
Definition covers (big small : interval) : Prop :=
  fleb (fst big) (fst small) = true /\ fleb (snd small) (snd big) = true.






(** The loop of [coalesce_intervals] as a recursion on the intervals still to
    come, [cur] being [out[-1]]. *)
Fixpoint sweep (eps : pyfloat) (cur : interval) (later : list interval)
  : list interval :=
  match later with
  | [] => [cur]
  | (s, e) :: rest =>
      if fleb s (fadd64 (snd cur) eps)
      then sweep eps (fst cur, py_max (snd cur) e) rest
      else cur :: sweep eps (s, e) rest
  end.

(** *** Locator *)

(** The second loop of [find_event_list], over [obj.values()]. *)
Fixpoint find_in_values (vs : dict) : option (list json) :=
  match vs with
  | [] => None
  | (_, v) :: rest =>
      match v with
      | JDict _ | JList _ =>
          match find_event_list v with
          | Some ev => Some ev
          | None => find_in_values rest
          end
      | _ => find_in_values rest
      end
  end.

Definition is_container (v : json) : bool :=
  match v with JDict _ | JList _ => true | _ => false end.

(** What the locator finds in each mapping or sequence among the values of a
    mapping, in iteration order, "not found" left out. *)
Definition located_in_values (d : dict) : list (list json) :=
  flat_map (fun v => match find_event_list v with
                     | Some l => [l]
                     | None => []
                     end)
           (filter is_container (dict_values d)).

(** The first result found among the values, and the first non-empty one. *)
Definition first_located (d : dict) : option (list json) :=
  hd_error (located_in_values d).

Definition first_nonempty_located (d : dict) : option (list json) :=
  hd_error (filter (fun l => match l with [] => false | _ => true end)
                   (located_in_values d)).

Definition all_mappings (l : list json) : bool := forallb is_dict l.

Definition head_is_mapping (l : list json) : bool :=
  match l with
  | [] => true
  | x :: _ => is_dict x
  end.

(** *** Classifier *)

(** An alias is present in a record when the record binds it to something
    other than [None]. *)
Definition present (ev : dict) (k : string) : bool :=
  match dict_get ev k with
  | Some v => negb (is_none v)
  | None => false
  end.

(** The first alias of [keys] present in [ev], with its value. *)
Definition first_alias (ev : dict) (keys : list string) : option (string * json) :=
  match find (present ev) keys with
  | Some k => match dict_get ev k with
              | Some v => Some (k, v)
              | None => None
              end
  | None => None
  end.

(** *** Extractor *)

(** The rest interval of one event, as the first phase takes it. *)
Definition explicit_rest_of `{PyBuiltins} (ev : json) : option interval :=
  match ev with
  | JDict d =>
      if is_rest_event d then
        match get_onset d, get_dur d with
        | Some onset, Some dur =>
            if fltb EPS dur then Some (onset, fadd onset dur) else None
        | _, _ => None
        end
      else None
  | _ => None
  end.

(** The active span of one event, as the second phase takes it: a non-rest
    record with onset and duration whose duration is not below zero. *)
Definition active_span_of `{PyBuiltins} (ev : json) : option interval :=
  match ev with
  | JDict d =>
      if is_rest_event d then None
      else
        match get_onset d, get_dur d with
        | Some onset, Some dur =>
            if fltb dur (Fin 0) then None else Some (onset, fadd onset dur)
        | _, _ => None
        end
  | _ => None
  end.

Definition keep_some {A B : Type} (f : A -> option B) (l : list A) : list B :=
  flat_map (fun a => match f a with Some b => [b] | None => [] end) l.




(** *** Validator *)

(** [abs(g - x)] over the common prefix of two sequences. *)
Definition prefix_errors (got expected : list pyfloat) : list pyfloat :=
  map (fun p => fabs (fsub (fst p) (snd p))) (combine got expected).

(* ================================================================== *)
(** ** Sample inputs *)
(* ================================================================== *)

(** A [float] parser that accepts no string; none of the samples below asks
    it anything. *)
Definition no_float_strings : PyBuiltins := {| float_of_str := fun _ => None |}.

(** [{"onset": o, "dur": d, "pitch": 60}] *)
Definition note (o d : Z) : json :=
  JDict [("onset", JInt o); ("dur", JInt d); ("pitch", JInt 60)]%string.

(** [{"rest": true, "onset": o, "dur": d}] *)
Definition rest_at (o d : json) : json :=
  JDict [("rest", JBool true); ("onset", o); ("dur", d)]%string.


(** [(0, 1)] and [(1.000000001, 2)], the second start being the binary64
    number that literal denotes, [281474976992131 / 2^48]. *)
Definition rounding_pair : list interval :=
  [(Fin 0, Fin 1); (Fin (281474976992131 # 281474976710656), Fin 2)].

(** [(0, 1)] and [(2, 3)]. *)
Definition two_spans : list interval := [(Fin 0, Fin 1); (Fin 2, Fin 3)].

(** Two notes sounding over [(0, 1)] and [(2, 3)]. *)
Definition two_notes : list json := [note 0 1; note 2 1].


(** A rest over [(0, 1)] followed by two notes with a gap between them. *)
Definition rest_then_notes : list json :=
  [rest_at (JInt 0) (JInt 1); note 5 1; note 10 1].

(** A rest whose onset is NaN. *)
Definition nan_rest : list json := [rest_at (JFloat NaN) (JInt 1)].

(** [{"foo": []}] *)
Definition empty_nested : dict := [("foo", JList [])]%string.

(** [{"foo": {"bar": [{"onset": 0, "dur": 1}]}}] *)
Definition nested_document : dict :=
  [("foo", JDict [("bar", JList [JDict [("onset", JInt 0); ("dur", JInt 1)]])])]%string.

(** [[{}, 1]] *)
Definition mixed_list : list json := [JDict []; JInt 1].

(** [{"offset": null, "onset": 3}] *)
Definition null_offset : dict := [("offset", JNull); ("onset", JInt 3)]%string.

(** [EXPECTED_NIDI_PANEL1_EIGHTH] *)
Definition EXPECTED_NIDI_PANEL1_EIGHTH : list pyfloat :=
  [Fin 3; Fin (5 # 2); Fin 1; Fin (7 # 2); Fin 1; Fin 4; Fin (3 # 2);
   Fin (1 # 2); Fin (3 # 2); Fin 3; Fin (5 # 2); Fin (1 # 2); Fin (7 # 2);
   Fin 1; Fin 4; Fin (3 # 2); Fin (1 # 2); Fin (1 # 2)].

(* ================================================================== *)
(** ** Orchestrator *)
(* ================================================================== *)

(** One of the two entries of the payload of [main]. *)
Record rests : Type :=
  { rests_eighth : list pyfloat; rest_intervals_quarter : list interval }.

(** What a run that completes has printed and would save: the payload, and
    the lines of [validate_expected] when the check was asked for. *)
Record output : Type :=
  { lumen : rests; nidi : rests; nidi_check : option report }.

(** How [main] ends: by [raise SystemExit(message)], by an exception nothing
    catches, or by running to its end. *)
Inductive outcome : Type :=
| SystemExit (message : string)
| Uncaught
| Completed (o : output).

(** [[round(s, 6), round(e, 6)]] *)
Definition rounded (iv : interval) : interval :=
  (round6 (fst iv), round6 (snd iv)).

(** [main], from the two parsed documents on.  The parsing of the command
    line, the reading and writing of files and the text of the printed lines
    are left out; the arguments are what [load_json] returned and the two
    flags. *)
Definition main `{PyBuiltins} (lumen_obj nidi_obj : json)
    (require_explicit check_nidi_panel1 : bool) : outcome :=
  let lumen_events := find_event_list lumen_obj in
  let nidi_events := find_event_list nidi_obj in
  match lumen_events with
  | None => SystemExit "Could not find an event list in Lumen JSON."
  | Some lumen_events =>
      match nidi_events with
      | None => SystemExit "Could not find an event list in Nidi JSON."
      | Some nidi_events =>
          let lumen_rest_intervals :=
            extract_rest_intervals lumen_events require_explicit in
          let nidi_rest_intervals :=
            extract_rest_intervals nidi_events require_explicit in
          let rests_lumen := intervals_to_eighth_durations lumen_rest_intervals in
          let rests_nidi := intervals_to_eighth_durations nidi_rest_intervals in
          let payload (c : option report) :=
            Completed
              {| lumen := {| rests_eighth := rests_lumen;
                             rest_intervals_quarter :=
                               map rounded lumen_rest_intervals |};
                 nidi := {| rests_eighth := rests_nidi;
                            rest_intervals_quarter :=
                              map rounded nidi_rest_intervals |};
                 nidi_check := c |} in
          if check_nidi_panel1 then
            match validate_expected rests_nidi EXPECTED_NIDI_PANEL1_EIGHTH with
            | Some r => payload (Some r)
            | None => Uncaught
            end
          else payload None
      end
  end.

(* ================================================================== *)
(** ** Further vocabulary *)
(* ================================================================== *)

(** [v] occurs in [doc]: it is [doc], or occurs in an element of the
    sequence [doc], or in a value of the mapping [doc]. *)
Inductive occurs_in (v : json) : json -> Prop :=
| occurs_here : occurs_in v v
| occurs_in_list (x : json) (l : list json) :
    In x l -> occurs_in v x -> occurs_in v (JList l)
| occurs_in_dict (k : string) (x : json) (d : dict) :
    In (k, x) d -> occurs_in v x -> occurs_in v (JDict d).

(** The aliases that [is_rest_event] and [get_dur] look up. *)
Definition type_keys : list string :=
  ["type"; "kind"; "event_type"; "eventType"; "name"]%string.
Definition pitch_keys : list string :=
  ["pitch_midi"; "pitchMidi"; "pitch"; "pc"; "pitch_class"; "pitchClass"]%string.
Definition pitch_list_keys : list string := ["pitches"; "midi"; "midis"]%string.
Definition quarter_keys : list string :=
  ["dur_q"; "duration_q"; "dur"; "duration"; "ql"; "quarterLength";
   "quarter_length"]%string.
Definition eighth_keys : list string :=
  ["dur_8"; "duration_8"; "eighth"; "eighths"]%string.

(** [float] of the value of the first alias of [keys] present in [ev]. *)
Definition alias_float `{PyBuiltins} (ev : dict) (keys : list string)
  : option pyfloat :=
  match first_alias ev keys with
  | Some (_, v) => py_float v
  | None => None
  end.

(** Two floats with the same value. *)
Definition same_number (x y : pyfloat) : Prop := feqb x y = true.

(** A pair of finite floats, and [abs(g - x)] for the pair [(g, x)]. *)
Definition finite_pair (p : pyfloat * pyfloat) : Prop :=
  is_finite (fst p) = true /\ is_finite (snd p) = true.

Definition abs_error (p : pyfloat * pyfloat) : pyfloat :=
  fabs (fsub (fst p) (snd p)).

(** ** Further sample inputs *)

(** [{"type": "note", "data": 7, "events": [{"onset": 0, "dur": 1}],
      "items": []}] *)
Definition keyed_document : dict :=
  [("type", JStr "note"); ("data", JInt 7);
   ("items", JList []);
   ("events", JList [JDict [("onset", JInt 0); ("dur", JInt 1)]])]%string.

(** [{"name": "Half REST", "pitch": 60}] *)
Definition named_rest : dict :=
  [("name", JStr "Half REST"); ("pitch", JInt 60)]%string.

(** [{"is_rest": "false", "pitch": 60}]: a non-empty string is true. *)
Definition flagged_rest : dict :=
  [("is_rest", JStr "false"); ("pitch", JInt 60)]%string.

(** [{"dur": "long", "duration": 4, "eighths": 3}] *)
Definition mixed_durations : dict :=
  [("dur", JStr "long"); ("duration", JInt 4); ("eighths", JInt 3)]%string.

(** A rest too short to count, and a note. *)
Definition short_rest_and_note : list json :=
  [rest_at (JInt 0) (JInt 0); note 1 1].

(** Notes over [(0, 1)], [(1, 2)] and [(4, 5)], out of order. *)
Definition three_notes : list json := [note 4 1; note 0 1; note 1 1].

(* ================================================================== *)
(** * Properties *)
(* ================================================================== *)

(** ** Order on floats *)

Lemma Qltb_true a b : Qltb a b = true <-> a < b.
Proof.
  unfold Qltb. destruct (Qcompare_spec a b); split; intros;
    try discriminate; try reflexivity; lra.
Qed.

Lemma Qltb_false a b : Qltb a b = false <-> b <= a.
Proof.
  unfold Qltb. destruct (Qcompare_spec a b); split; intros;
    try discriminate; try reflexivity; lra.
Qed.

Lemma Qleb_true a b : Qleb a b = true <-> a <= b.
Proof.
  unfold Qleb. destruct (Qcompare_spec a b); split; intros;
    try discriminate; try reflexivity; lra.
Qed.

Lemma Qleb_false a b : Qleb a b = false <-> b < a.
Proof.
  unfold Qleb. destruct (Qcompare_spec a b); split; intros;
    try discriminate; try reflexivity; lra.
Qed.

Lemma Qeqb_true a b : Qeqb a b = true <-> a == b.
Proof.
  unfold Qeqb. destruct (Qcompare_spec a b); split; intros;
    try discriminate; try reflexivity; lra.
Qed.

Lemma Qeqb_false a b : Qeqb a b = false <-> ~ a == b.
Proof.
  unfold Qeqb. destruct (Qcompare_spec a b); split; intros;
    try discriminate; try reflexivity; lra.
Qed.

(** Boolean comparisons of rationals, turned into propositions for [lra]. *)
Ltac qprop :=
  repeat match goal with
  | H : Qltb _ _ = true |- _ => apply Qltb_true in H
  | H : Qltb _ _ = false |- _ => apply Qltb_false in H
  | H : Qleb _ _ = true |- _ => apply Qleb_true in H
  | H : Qleb _ _ = false |- _ => apply Qleb_false in H
  | H : Qeqb _ _ = true |- _ => apply Qeqb_true in H
  | H : Qeqb _ _ = false |- _ => apply Qeqb_false in H
  | |- Qltb _ _ = true => apply Qltb_true
  | |- Qltb _ _ = false => apply Qltb_false
  | |- Qleb _ _ = true => apply Qleb_true
  | |- Qleb _ _ = false => apply Qleb_false
  | |- Qeqb _ _ = true => apply Qeqb_true
  | |- Qeqb _ _ = false => apply Qeqb_false
  end.

Ltac fsplit :=
  repeat match goal with
  | iv : interval |- _ => destruct iv
  | iv : (pyfloat * pyfloat)%type |- _ => destruct iv
  | x : pyfloat |- _ => destruct x
  end.

(** Facts of order between a few floats: by cases on what each float is,
    then linear arithmetic on the rationals. *)
Ltac forder :=
  unfold wf, nan_free, finite_interval, key_le, key_lt, start_le, covers,
    py_max, EPS in *;
  simpl in *; intros;
  repeat match goal with H : _ /\ _ |- _ => destruct H end;
  fsplit; simpl in *;
  try discriminate; try reflexivity; try tauto;
  repeat match goal with
  | |- context [if ?b then _ else _] => let E := fresh "E" in destruct b eqn:E
  | H : context [if ?b then _ else _] |- _ => let E := fresh "E" in destruct b eqn:E
  end; simpl in *;
  try discriminate; try reflexivity;
  repeat split;
  qprop; try discriminate; try reflexivity; try lra.

Lemma wf_nan_free iv : wf iv -> nan_free iv.
Proof. forder. Qed.

Lemma key_lt_asym a b : key_lt a b = true -> key_le a b.
Proof. forder. Qed.

Lemma key_le_trans a b c :
  nan_free a -> nan_free b -> nan_free c ->
  key_le a b -> key_le b c -> key_le a c.
Proof. forder. Qed.

Lemma key_le_start_le a b :
  nan_free a -> nan_free b -> key_le a b -> start_le a b.
Proof. forder. Qed.

Lemma fltb_not_le x y : fltb x y = true -> fleb y x = false.
Proof. forder. Qed.

Lemma not_le_fltb x y :
  is_nan x = false -> is_nan y = false -> fleb y x = false -> fltb x y = true.
Proof. forder. Qed.

Lemma fleb_refl x : is_nan x = false -> fleb x x = true.
Proof. forder. Qed.

(** ** The rounded sum *)

Lemma round64_not_nan q : is_nan (round64 q) = false.
Proof.
  unfold round64. cbv zeta.
  destruct (Qcompare q 0); try reflexivity;
    match goal with |- context [if ?b then _ else _] => destruct b end;
    reflexivity.
Qed.

(** Adding a finite tolerance to a number gives a number. *)
Lemma fadd64_not_nan x eps :
  is_finite eps = true -> is_nan x = false -> is_nan (fadd64 x eps) = false.
Proof.
  unfold fadd64.
  destruct x, eps; try discriminate; intros _ _; cbn [fadd]; try reflexivity.
  apply round64_not_nan.
Qed.

Lemma apart_not_le eps a b :
  apart eps a b -> fleb (fst b) (fadd64 (snd a) eps) = false.
Proof. apply fltb_not_le. Qed.

Lemma not_le_apart eps a b :
  is_finite eps = true -> nan_free a -> is_nan (fst b) = false ->
  fleb (fst b) (fadd64 (snd a) eps) = false -> apart eps a b.
Proof.
  intros He Ha Hb H. apply not_le_fltb; [|exact Hb|exact H].
  apply fadd64_not_nan; [exact He | apply Ha].
Qed.

(** ** The sort *)

Lemma insert_perm x l : Permutation (insert x l) (x :: l).
Proof.
  induction l as [|y l IH]; simpl.
  - apply Permutation_refl.
  - destruct (key_lt y x).
    + eapply perm_trans; [apply perm_skip, IH | apply perm_swap].
    + apply Permutation_refl.
Qed.

Lemma sorted_perm l : Permutation (sorted l) l.
Proof.
  induction l as [|x l IH]; simpl.
  - apply perm_nil.
  - eapply perm_trans; [apply insert_perm | apply perm_skip, IH].
Qed.

Lemma sorted_Forall (P : interval -> Prop) l : Forall P l -> Forall P (sorted l).
Proof.
  intro H. eapply Permutation_Forall; [apply Permutation_sym, sorted_perm | exact H].
Qed.

Lemma sorted_length l : List.length (sorted l) = List.length l.
Proof. apply Permutation_length, sorted_perm. Qed.

Lemma sorted_nil_inv l : sorted l = [] -> l = [].
Proof.
  intro H. apply Permutation_nil. rewrite <- H. apply sorted_perm.
Qed.

Lemma insert_strongly_sorted x l :
  nan_free x -> Forall nan_free l ->
  StronglySorted ordered l -> StronglySorted ordered (insert x l).
Proof.
  intros Hx Hl Hs. induction Hs as [|y l Hs IH Hy]; simpl.
  - constructor; constructor.
  - inversion Hl as [|? ? Hny Hnl]; subst.
    destruct (key_lt y x) eqn:E.
    + constructor; [apply IH; assumption|].
      eapply Permutation_Forall; [apply Permutation_sym, insert_perm|].
      constructor; [|exact Hy].
      repeat split; try apply Hny; try apply Hx. apply key_lt_asym, E.
    + constructor; [constructor; assumption|].
      constructor; [repeat split; try apply Hny; try apply Hx; exact E|].
      rewrite Forall_forall in *. intros z Hz.
      destruct (Hy z Hz) as (_ & Hnz & Hyz).
      repeat split; try apply Hx; try apply Hnz.
      apply key_le_trans with y; auto.
Qed.

Lemma sorted_strongly_sorted l :
  Forall nan_free l -> StronglySorted ordered (sorted l).
Proof.
  induction 1 as [|x l Hx Hl IH]; simpl.
  - constructor.
  - apply insert_strongly_sorted; auto. apply sorted_Forall, Hl.
Qed.

Lemma ordered_start_le a b : ordered a b -> start_le a b.
Proof. intros (Ha & Hb & H). apply key_le_start_le; assumption. Qed.

Lemma StronglySorted_weaken (R S : interval -> interval -> Prop) l :
  (forall a b, R a b -> S a b) -> StronglySorted R l -> StronglySorted S l.
Proof.
  intros HRS. induction 1 as [|x l Hs IH Hx]; constructor; auto.
  eapply Forall_impl; [|exact Hx]. intros; auto.
Qed.

Lemma sorted_by_start l :
  Forall wf l -> StronglySorted start_le (sorted l).
Proof.
  intro H. apply StronglySorted_weaken with ordered; [apply ordered_start_le|].
  apply sorted_strongly_sorted. eapply Forall_impl; [|exact H].
  apply wf_nan_free.
Qed.

(** A list already in key order comes back from the sort as it is. *)
Lemma sorted_id l : Sorted key_le l -> sorted l = l.
Proof.
  induction 1 as [|x l Hs IH Hx]; simpl; [reflexivity|].
  rewrite IH. destruct Hx as [|y l Hxy]; simpl; [reflexivity|].
  unfold key_le in Hxy. rewrite Hxy. reflexivity.
Qed.

(** ** The coalescing loop *)

Lemma fold_sweep eps later : forall cur older,
  rev (fold_left (coalesce_step eps) later (cur :: older))
  = rev older ++ sweep eps cur later.
Proof.
  induction later as [|[s e] later IH]; intros [ps pe] older; simpl.
  - reflexivity.
  - destruct (fleb s (fadd64 pe eps)); rewrite IH; simpl.
    + reflexivity.
    + rewrite <- app_assoc. reflexivity.
Qed.

Lemma coalesce_sweep l eps :
  coalesce_intervals l eps
  = match sorted l with
    | [] => []
    | first :: rest => sweep eps first rest
    end.
Proof.
  unfold coalesce_intervals. destruct (sorted l) as [|first rest]; [reflexivity|].
  apply (fold_sweep eps rest first []).
Qed.

Lemma sweep_head eps later : forall cur,
  exists e rest, sweep eps cur later = (fst cur, e) :: rest.
Proof.
  induction later as [|[s e] later IH]; intros [ps pe]; simpl.
  - eauto.
  - destruct (fleb s (fadd64 pe eps)).
    + apply (IH (ps, py_max pe e)).
    + eauto.
Qed.

Lemma sweep_not_nil eps cur later : sweep eps cur later <> [].
Proof.
  destruct (sweep_head eps later cur) as (e & rest & H). rewrite H. discriminate.
Qed.

Lemma sweep_length eps later : forall cur,
  (List.length (sweep eps cur later) <= S (List.length later))%nat.
Proof.
  induction later as [|[s e] later IH]; intros [ps pe]; simpl.
  - lia.
  - destruct (fleb s (fadd64 pe eps)); simpl.
    + specialize (IH (ps, py_max pe e)). lia.
    + specialize (IH (s, e)). lia.
Qed.

Lemma merge_wf ps pe s e : wf (ps, pe) -> wf (s, e) -> wf (ps, py_max pe e).
Proof. forder. Qed.

Lemma sweep_wf eps later : forall cur,
  wf cur -> Forall wf later -> Forall wf (sweep eps cur later).
Proof.
  induction later as [|[s e] later IH]; intros [ps pe] Hc Hl; simpl.
  - constructor; [exact Hc | constructor].
  - inversion Hl as [|? ? Hse Hl']; subst.
    destruct (fleb s (fadd64 pe eps)).
    + apply IH; [apply merge_wf with s; assumption | exact Hl'].
    + constructor; [exact Hc | apply IH; assumption].
Qed.

Lemma sweep_starts_sorted eps later : forall cur,
  Forall (start_le cur) later -> StronglySorted start_le later ->
  Sorted start_le (sweep eps cur later).
Proof.
  induction later as [|[s e] later IH]; intros [ps pe] Hc Hs; simpl.
  - repeat constructor.
  - inversion Hc as [|? ? Hse Hc']; subst.
    inversion Hs as [|? ? Hs' Hall]; subst.
    destruct (fleb s (fadd64 pe eps)).
    + apply IH; assumption.
    + constructor; [apply IH; assumption|].
      destruct (sweep_head eps later (s, e)) as (e' & rest & ->).
      constructor. exact Hse.
Qed.

Lemma merge_nan_free ps pe s e :
  nan_free (ps, pe) -> nan_free (s, e) -> nan_free (ps, py_max pe e).
Proof. forder. Qed.

(** Where the loop starts a new interval the merge test has failed, and it
    fails again on the same two numbers. *)
Lemma sweep_separated eps later : forall cur,
  is_finite eps = true -> nan_free cur -> Forall nan_free later ->
  Sorted (apart eps) (sweep eps cur later).
Proof.
  induction later as [|[s e] later IH]; intros [ps pe] He Hc Hl; simpl.
  - repeat constructor.
  - inversion Hl as [|? ? Hse Hl']; subst.
    destruct (fleb s (fadd64 pe eps)) eqn:E.
    + apply IH; [exact He | apply merge_nan_free with s; assumption | exact Hl'].
    + constructor; [apply IH; assumption|].
      destruct (sweep_head eps later (s, e)) as (e' & rest & ->).
      constructor. apply not_le_apart; auto. apply Hse.
Qed.

(** *** Key order of the output *)

Lemma py_max_reach pe e x :
  is_nan pe = false -> is_nan e = false ->
  fleb (py_max pe e) x = true -> fleb pe x = true.
Proof. forder. Qed.

(** The interval at the head of the output keeps its start, and its end is
    no earlier than it was. *)
Lemma sweep_head_reach eps later : forall cur,
  nan_free cur -> Forall nan_free later ->
  exists e rest, sweep eps cur later = (fst cur, e) :: rest
                 /\ fleb (snd cur) e = true.
Proof.
  induction later as [|[s e] later IH]; intros [ps pe] Hc Hl; simpl.
  - exists pe, []. split; [reflexivity | apply fleb_refl, Hc].
  - inversion Hl as [|? ? Hse Hl']; subst.
    destruct (fleb s (fadd64 pe eps)).
    + destruct (IH (ps, py_max pe e)) as (e' & rest & Heq & Hle);
        [apply merge_nan_free with s; assumption | exact Hl' |].
      exists e', rest. split; [exact Heq|].
      apply py_max_reach with e; [apply Hc | apply Hse | exact Hle].
    + exists pe, (sweep eps (s, e) later).
      split; [reflexivity | apply fleb_refl, Hc].
Qed.

(** An interval that follows, in key order, both the accumulated interval
    and the one merged into it follows their merge as well. *)
Lemma key_le_merge ps pe s e (x : interval) :
  nan_free (ps, pe) -> nan_free (s, e) -> nan_free x ->
  key_le (ps, pe) (s, e) -> key_le (ps, pe) x -> key_le (s, e) x ->
  key_le (ps, py_max pe e) x.
Proof. forder. Qed.

Lemma key_le_reach ps pe s e e' :
  nan_free (ps, pe) -> nan_free (s, e) ->
  key_le (ps, pe) (s, e) -> fleb e e' = true -> key_le (ps, pe) (s, e').
Proof. forder. Qed.

(** The output of the loop is in key order, so that sorting it again moves
    nothing. *)
Lemma sweep_key_sorted eps later : forall cur,
  nan_free cur -> Forall nan_free later ->
  Forall (key_le cur) later -> StronglySorted ordered later ->
  Sorted key_le (sweep eps cur later).
Proof.
  induction later as [|[s e] later IH]; intros [ps pe] Hc Hl Hle Hs; simpl.
  - repeat constructor.
  - inversion Hl as [|? ? Hse Hl']; subst.
    inversion Hle as [|? ? Hcs Hle']; subst.
    inversion Hs as [|? ? Hs' Hall]; subst.
    destruct (fleb s (fadd64 pe eps)).
    + apply IH;
        [apply merge_nan_free with s; assumption | exact Hl' | | exact Hs'].
      rewrite Forall_forall in *. intros x Hx.
      apply key_le_merge with s; auto. apply (Hall x Hx).
    + constructor.
      * apply IH; [exact Hse | exact Hl' | | exact Hs'].
        eapply Forall_impl; [|exact Hall]. intros x (_ & _ & H). exact H.
      * destruct (sweep_head_reach eps later (s, e) Hse Hl')
          as (e' & rest & -> & Hreach).
        constructor. apply key_le_reach with e; assumption.
Qed.





(** A list whose neighbours are all apart is left as it is by the loop. *)
Lemma sweep_fixed eps later : forall cur,
  Sorted (apart eps) (cur :: later) -> sweep eps cur later = cur :: later.
Proof.
  induction later as [|[s e] later IH]; intros [ps pe] H; simpl.
  - reflexivity.
  - inversion H as [|? ? Hs Hhd]; subst.
    inversion Hhd as [|? ? Hap]; subst.
    apply apart_not_le in Hap. simpl in Hap. rewrite Hap.
    rewrite IH; [reflexivity | exact Hs].
Qed.

Lemma wf_all_nan_free l : Forall wf l -> Forall nan_free l.
Proof. intro H. eapply Forall_impl; [|exact H]. apply wf_nan_free. Qed.

Lemma coalesce_key_sorted l eps :
  Forall nan_free l -> Sorted key_le (coalesce_intervals l eps).
Proof.
  intro Hl. rewrite coalesce_sweep.
  pose proof (sorted_Forall nan_free l Hl) as Hn.
  pose proof (sorted_strongly_sorted l Hl) as Hs.
  destruct (sorted l) as [|first rest]; [constructor|].
  inversion Hn as [|? ? Hf Hr]; subst.
  inversion Hs as [|? ? Hs' Hall]; subst.
  apply sweep_key_sorted; try assumption.
  eapply Forall_impl; [|exact Hall]. intros x (_ & _ & H). exact H.
Qed.

Lemma coalesce_separated l eps :
  is_finite eps = true -> Forall nan_free l ->
  separated eps (coalesce_intervals l eps).
Proof.
  intros He Hl. rewrite coalesce_sweep.
  pose proof (sorted_Forall nan_free l Hl) as Hn.
  destruct (sorted l) as [|first rest]; [constructor|].
  inversion Hn; subst. apply sweep_separated; assumption.
Qed.

(** What the coalescing of well-formed intervals looks like. *)
Lemma coalesce_shape l eps :
  is_finite eps = true -> Forall wf l ->
  Forall wf (coalesce_intervals l eps)
  /\ starts_sorted (coalesce_intervals l eps)
  /\ separated eps (coalesce_intervals l eps).
Proof.
  intros He Hl. rewrite coalesce_sweep.
  pose proof (sorted_Forall wf l Hl) as Hw.
  pose proof (sorted_by_start l Hl) as Hs.
  destruct (sorted l) as [|first rest].
  - repeat split; constructor.
  - inversion Hw as [|? ? Hf Hr]; subst.
    inversion Hs as [|? ? Hs' Hall]; subst.
    repeat split.
    + apply sweep_wf; assumption.
    + apply sweep_starts_sorted; assumption.
    + apply sweep_separated;
        [assumption | apply wf_nan_free; assumption | apply wf_all_nan_free; assumption].
Qed.

(** A list in key order on whose neighbours the merge test fails comes back
    as it is. *)
Lemma coalesce_fixed l eps :
  Sorted key_le l -> separated eps l -> coalesce_intervals l eps = l.
Proof.
  intros Hk Hs. rewrite coalesce_sweep, (sorted_id l Hk).
  destruct l as [|first rest]; [reflexivity|].
  apply sweep_fixed. exact Hs.
Qed.

Lemma coalesce_idempotent l eps :
  is_finite eps = true -> Forall nan_free l ->
  coalesce_intervals (coalesce_intervals l eps) eps = coalesce_intervals l eps.
Proof.
  intros He Hl. apply coalesce_fixed.
  - apply coalesce_key_sorted, Hl.
  - apply coalesce_separated; assumption.
Qed.

Lemma coalesce_length l eps :
  (List.length (coalesce_intervals l eps) <= List.length l)%nat.
Proof.
  rewrite coalesce_sweep, <- (sorted_length l).
  destruct (sorted l) as [|first rest]; simpl; [lia | apply sweep_length].
Qed.

Lemma coalesce_nil_inv l eps : coalesce_intervals l eps = [] -> l = [].
Proof.
  rewrite coalesce_sweep. destruct (sorted l) as [|first rest] eqn:E.
  - intros _. apply sorted_nil_inv, E.
  - intro H. exfalso. exact (sweep_not_nil eps first rest H).
Qed.

Lemma coalesce_wf_any l eps : Forall wf l -> Forall wf (coalesce_intervals l eps).
Proof.
  intro Hl. rewrite coalesce_sweep.
  pose proof (sorted_Forall wf l Hl) as Hw.
  destruct (sorted l) as [|first rest]; [constructor|].
  inversion Hw; subst. apply sweep_wf; assumption.
Qed.

(** ** Measure *)





(* ================================================================== *)
(** ** Coalescing *)
(* ================================================================== *)




(** C3, as stated, fails.  The list [(0, 1)], [(1.000000001, 2)] is sorted
    by start, and the second start is strictly greater than the first end
    plus epsilon: the binary64 number written [1.000000001] exceeds
    [1 + EPS] by about [8e-17].  But the merge test compares with the
    rounded sum, [1.0 + 1e-9] rounds up to that very number, the test
    succeeds, and the list comes back as [(0, 2)]. *)
Lemma coalescing_fixed_point_counterexample :
  Forall wf rounding_pair
  /\ Sorted key_le rounding_pair
  /\ fltb (fadd (Fin 1) EPS) (Fin (281474976992131 # 281474976710656)) = true
  /\ feqb (fadd64 (Fin 1) EPS) (Fin (281474976992131 # 281474976710656)) = true
  /\ coalesce_intervals rounding_pair EPS = [(Fin 0, Fin 2)].
Proof.
  split; [repeat constructor|]. split; [repeat constructor|].
  repeat split; vm_compute; reflexivity.
Qed.

(** C3, amended.  A list of intervals free of NaN that is in the order of
    the sort key and on whose neighbours the merge test fails, every start
    strictly greater than the rounded sum of the previous end and [EPS],
    comes back from [coalesce_intervals] unchanged; and for every list free
    of NaN, coalescing what was coalesced changes nothing. *)
Theorem coalescing_idempotence (l : list interval) :
  Forall nan_free l ->
  (key_sorted l -> separated EPS l -> coalesce_intervals l EPS = l)
  /\ coalesce_intervals (coalesce_intervals l EPS) EPS
     = coalesce_intervals l EPS.
Proof.
  intro Hl. split.
  - intros Hk Hsep. apply coalesce_fixed; assumption.
  - apply coalesce_idempotent; [reflexivity | exact Hl].
Qed.

Lemma coalescing_idempotence_witness :
  coalesce_intervals two_spans EPS = two_spans
  /\ coalesce_intervals (coalesce_intervals two_spans EPS) EPS
     = coalesce_intervals two_spans EPS.
Proof.
  destruct (coalescing_idempotence two_spans) as (Hfix & Hidem).
  - repeat constructor.
  - split; [apply Hfix; repeat constructor | exact Hidem].
Defined.

(* ================================================================== *)
(** ** Interval extractor *)
(* ================================================================== *)

Section Extractor.

Context `{PyBuiltins}.

Lemma explicit_rests_cons ev events :
  explicit_rests (ev :: events)
  = match explicit_rest_of ev with
    | Some iv => iv :: explicit_rests events
    | None => explicit_rests events
    end.
Proof.
  destruct ev; try reflexivity. cbn [explicit_rests explicit_rest_of].
  destruct (is_rest_event d); [|reflexivity].
  destruct (get_onset d) as [onset|]; [|reflexivity].
  destruct (get_dur d) as [dur|]; [|reflexivity].
  destruct (fltb EPS dur); reflexivity.
Qed.

Lemma active_spans_cons ev events :
  active_spans (ev :: events)
  = match active_span_of ev with
    | Some iv => iv :: active_spans events
    | None => active_spans events
    end.
Proof.
  destruct ev; try reflexivity. cbn [active_spans active_span_of].
  destruct (is_rest_event d); [reflexivity|].
  destruct (get_onset d) as [onset|]; [|reflexivity].
  destruct (get_dur d) as [dur|]; [|reflexivity].
  destruct (fltb dur (Fin 0)); reflexivity.
Qed.

Lemma explicit_rests_keep events :
  explicit_rests events = keep_some explicit_rest_of events.
Proof.
  induction events as [|ev events IH]; [reflexivity|].
  rewrite explicit_rests_cons. unfold keep_some in *. simpl.
  destruct (explicit_rest_of ev); simpl; rewrite IH; reflexivity.
Qed.


Lemma explicit_rests_filter events :
  explicit_rests events = explicit_rests (filter is_dict events).
Proof.
  induction events as [|ev events IH]; [reflexivity|].
  destruct ev; simpl filter; try exact IH.
  rewrite !explicit_rests_cons, IH. reflexivity.
Qed.

Lemma active_spans_filter events :
  active_spans events = active_spans (filter is_dict events).
Proof.
  induction events as [|ev events IH]; [reflexivity|].
  destruct ev; simpl filter; try exact IH.
  rewrite !active_spans_cons, IH. reflexivity.
Qed.

Lemma explicit_rests_In events ev onset dur :
  In (JDict ev) events -> is_rest_event ev = true ->
  get_onset ev = Some onset -> get_dur ev = Some dur -> fltb EPS dur = true ->
  In (onset, fadd onset dur) (explicit_rests events).
Proof.
  intros Hin Hrest Ho Hd Hlong.
  induction events as [|ev' events IH]; [destruct Hin|].
  rewrite explicit_rests_cons. destruct Hin as [->|Hin].
  - cbn [explicit_rest_of]. rewrite Hrest, Ho, Hd, Hlong. left. reflexivity.
  - destruct (explicit_rest_of ev'); [right|]; apply IH, Hin.
Qed.

Lemma explicit_rests_form events iv :
  In iv (explicit_rests events) ->
  exists onset dur, iv = (onset, fadd onset dur) /\ fltb EPS dur = true.
Proof.
  induction events as [|ev events IH]; [intros []|].
  rewrite explicit_rests_cons.
  destruct (explicit_rest_of ev) as [iv'|] eqn:E; [|exact IH].
  intros [<-|Hin]; [|apply IH, Hin].
  destruct ev; cbn [explicit_rest_of] in E; try discriminate.
  destruct (is_rest_event d); [|discriminate].
  destruct (get_onset d) as [onset|]; [|discriminate].
  destruct (get_dur d) as [dur|]; [|discriminate].
  destruct (fltb EPS dur) eqn:El; [|discriminate].
  injection E as <-. eauto.
Qed.

End Extractor.

Lemma explicit_rest_wf onset dur :
  fltb EPS dur = true -> nan_free (onset, fadd onset dur) ->
  wf (onset, fadd onset dur).
Proof. forder. Qed.

Lemma gap_wf e1 s2 : fltb EPS (fsub s2 e1) = true -> wf (e1, s2).
Proof. unfold fsub. forder. Qed.

Lemma inferred_gaps_step s1 e1 s2 e2 later :
  inferred_gaps ((s1, e1) :: (s2, e2) :: later)
  = if fltb EPS (fsub s2 e1) then (e1, s2) :: inferred_gaps ((s2, e2) :: later)
    else inferred_gaps ((s2, e2) :: later).
Proof. reflexivity. Qed.


(** Whatever the spans are, and in whatever order, each gap kept is an
    interval. *)
Lemma inferred_gaps_wf spans : Forall wf (inferred_gaps spans).
Proof.
  induction spans as [|[s1 e1] spans IH]; [constructor|].
  destruct spans as [|[s2 e2] later]; [constructor|].
  rewrite inferred_gaps_step. destruct (fltb EPS (fsub s2 e1)) eqn:E; [|exact IH].
  constructor; [apply gap_wf, E | exact IH].
Qed.

(** A property of intervals that merging keeps is kept by the whole loop. *)
Lemma sweep_preserves (P : interval -> Prop) eps later :
  (forall ps pe s e, P (ps, pe) -> P (s, e) -> P (ps, py_max pe e)) ->
  forall cur, P cur -> Forall P later -> Forall P (sweep eps cur later).
Proof.
  intro Hmerge.
  induction later as [|[s e] later IH]; intros [ps pe] Hc Hl; simpl.
  - constructor; [exact Hc | constructor].
  - inversion Hl as [|? ? Hse Hl']; subst.
    destruct (fleb s (fadd64 pe eps)).
    + apply IH; [apply Hmerge with s; assumption | exact Hl'].
    + constructor; [exact Hc | apply IH; assumption].
Qed.

Lemma coalesce_preserves (P : interval -> Prop) l eps :
  (forall ps pe s e, P (ps, pe) -> P (s, e) -> P (ps, py_max pe e)) ->
  Forall P l -> Forall P (coalesce_intervals l eps).
Proof.
  intros Hmerge Hl. rewrite coalesce_sweep.
  pose proof (sorted_Forall P l Hl) as Hp.
  destruct (sorted l) as [|first rest]; [constructor|].
  inversion Hp; subst. apply sweep_preserves; assumption.
Qed.




(** C1.  When some event of the list is classified as a rest, has an onset and
    a duration, and its duration exceeds [EPS], [extract_rest_intervals] with
    [require_explicit] false leaves by its first [return]: the result is the
    coalescing of the explicit rest intervals, it holds at least one
    interval, and gap inference is never reached, whatever the active events
    are. *)
Theorem explicit_precedence `{PyBuiltins}
    (events : list json) (ev : dict) (onset dur : pyfloat) :
  In (JDict ev) events ->
  is_rest_event ev = true ->
  get_onset ev = Some onset ->
  get_dur ev = Some dur ->
  fltb EPS dur = true ->
  extract_rest_intervals_at events false
  = (ReturnExplicit,
     coalesce_intervals (keep_some explicit_rest_of events) EPS)
  /\ extract_rest_intervals events false
     = coalesce_intervals (keep_some explicit_rest_of events) EPS
  /\ In (onset, fadd onset dur) (keep_some explicit_rest_of events)
  /\ List.length (extract_rest_intervals events false) <> 0%nat.
Proof.
  intros Hin Hrest Ho Hd Hlong.
  pose proof (explicit_rests_In events ev onset dur Hin Hrest Ho Hd Hlong) as Hmem.
  assert (Hrun : extract_rest_intervals_at events false
                 = (ReturnExplicit, coalesce_intervals (explicit_rests events) EPS)).
  { unfold extract_rest_intervals_at.
    destruct (coalesce_intervals (explicit_rests events) EPS) eqn:E; [|reflexivity].
    apply coalesce_nil_inv in E. rewrite E in Hmem. destruct Hmem. }
  unfold extract_rest_intervals. rewrite Hrun, <- explicit_rests_keep.
  repeat split; auto. cbn [snd]. intro Hlen.
  apply length_zero_iff_nil, coalesce_nil_inv in Hlen.
  rewrite Hlen in Hmem. destruct Hmem.
Qed.

Lemma explicit_precedence_witness :
  extract_rest_intervals_at (H := no_float_strings) rest_then_notes false
  = (ReturnExplicit, [(Fin 0, Fin 1)])
  /\ active_spans (H := no_float_strings) rest_then_notes
     = [(Fin 5, Fin 6); (Fin 10, Fin 11)].
Proof.
  destruct (explicit_precedence (H := no_float_strings) rest_then_notes
              [("rest", JBool true); ("onset", JInt 0); ("dur", JInt 1)]%string
              (Fin 0) (Fin 1)) as (Hrun & _).
  - left. reflexivity.
  - reflexivity.
  - reflexivity.
  - reflexivity.
  - reflexivity.
  - split; [rewrite Hrun|]; reflexivity.
Defined.

(** C9, as stated, fails.  A rest event whose onset is NaN (the JSON literal
    [NaN], or the string ["nan"]) and whose duration is 1 passes the test
    [dur > EPS]; the interval returned for it is [(NaN, NaN)], and
    [NaN <= NaN] is false. *)
Lemma nan_onset_counterexample :
  extract_rest_intervals (H := no_float_strings) nan_rest false = [(NaN, NaN)]
  /\ fleb NaN NaN = false.
Proof. split; reflexivity. Qed.

(** C9, amended.  Every interval returned by [extract_rest_intervals], for
    any event list and either flag, satisfies [start <= end], provided no
    explicit rest interval has NaN for its onset or for its end
    [onset + dur].  Intervals inferred from gaps satisfy it always. *)
Theorem returned_intervals_well_formed `{PyBuiltins}
    (events : list json) (require_explicit : bool) :
  Forall nan_free (keep_some explicit_rest_of events) ->
  Forall wf (extract_rest_intervals events require_explicit).
Proof.
  rewrite <- explicit_rests_keep. intro Hfree.
  assert (Hexp : Forall wf (explicit_rests events)).
  { rewrite Forall_forall in *. intros iv Hin.
    destruct (explicit_rests_form events iv Hin) as (onset & dur & -> & Hlong).
    apply explicit_rest_wf; [exact Hlong | apply Hfree, Hin]. }
  unfold extract_rest_intervals, extract_rest_intervals_at.
  destruct (orb _ require_explicit).
  - cbn [snd]. apply coalesce_wf_any, Hexp.
  - destruct (active_spans events); cbn [snd]; [constructor|].
    apply coalesce_wf_any, inferred_gaps_wf.
Qed.

Lemma returned_intervals_well_formed_witness :
  Forall wf (extract_rest_intervals (H := no_float_strings) rest_then_notes false)
  /\ Forall wf (extract_rest_intervals (H := no_float_strings) two_notes true).
Proof.
  split; apply returned_intervals_well_formed; repeat constructor.
Defined.

(** C10.  Elements of the event list that are not mappings are passed over
    in both loops of [extract_rest_intervals]: the explicit rests, the active
    spans, the [return] taken and the result are those of the list with
    these elements removed.  The function is total: no input makes it
    raise. *)
Theorem non_mappings_skipped `{PyBuiltins}
    (events : list json) (require_explicit : bool) :
  explicit_rests events = explicit_rests (filter is_dict events)
  /\ active_spans events = active_spans (filter is_dict events)
  /\ extract_rest_intervals_at events require_explicit
     = extract_rest_intervals_at (filter is_dict events) require_explicit
  /\ extract_rest_intervals events require_explicit
     = extract_rest_intervals (filter is_dict events) require_explicit.
Proof.
  assert (Hrun : extract_rest_intervals_at events require_explicit
                 = extract_rest_intervals_at (filter is_dict events) require_explicit).
  { unfold extract_rest_intervals_at.
    rewrite <- explicit_rests_filter, <- active_spans_filter. reflexivity. }
  repeat split.
  - apply explicit_rests_filter.
  - apply active_spans_filter.
  - exact Hrun.
  - unfold extract_rest_intervals. rewrite Hrun. reflexivity.
Qed.

(* ================================================================== *)
(** ** Event-list locator *)
(* ================================================================== *)

Lemma json_nested_ind (P : json -> Prop) :
  P JNull ->
  (forall b, P (JBool b)) ->
  (forall z, P (JInt z)) ->
  (forall f, P (JFloat f)) ->
  (forall s, P (JStr s)) ->
  (forall l, Forall P l -> P (JList l)) ->
  (forall d : dict, Forall (fun kv => P (snd kv)) d -> P (JDict d)) ->
  forall j, P j.
Proof.
  intros HN HB HI HF HS HL HD. fix IH 1.
  intros [ | b | z | f | s | l | d ].
  - exact HN.
  - apply HB.
  - apply HI.
  - apply HF.
  - apply HS.
  - apply HL. induction l as [|x l IHl]; constructor; [apply IH | exact IHl].
  - apply HD. induction d as [|[k v] d IHd]; constructor; [apply IH | exact IHd].
Qed.

Lemma find_event_list_dict (d : dict) :
  find_event_list (JDict d)
  = match find_by_key d priority_keys with
    | Some v => Some v
    | None => find_in_values d
    end.
Proof. reflexivity. Qed.

Lemma looks_like_events_head v l :
  looks_like_events v = Some l -> head_is_mapping l = true.
Proof.
  destruct v as [ | | | | | [|[ | | | | | | d] rest] | ]; simpl; try discriminate;
    intro E; injection E as <-; reflexivity.
Qed.

Lemma find_by_key_head d keys l :
  find_by_key d keys = Some l -> head_is_mapping l = true.
Proof.
  induction keys as [|key keys IH]; simpl; [discriminate|].
  destruct (dict_get d key) as [v|]; [|exact IH].
  destruct (looks_like_events v) as [l'|] eqn:E; [|exact IH].
  intro E'. injection E' as <-. apply looks_like_events_head with v. exact E.
Qed.

Lemma find_in_values_located d : find_in_values d = first_located d.
Proof.
  unfold first_located, located_in_values, dict_values.
  induction d as [|[k v] d IH]; [reflexivity|].
  cbn [find_in_values map snd filter].
  destruct v; cbn [is_container flat_map]; try exact IH.
  - destruct (find_event_list (JList l)); [reflexivity | exact IH].
  - destruct (find_event_list (JDict d0)); [reflexivity | exact IH].
Qed.

(** C4, as stated, fails.  In [{"foo": []}] no priority key matches; the
    recursive call on the value [[]] returns the empty list, which is not
    [None], and the locator returns it. *)
Lemma empty_result_counterexample :
  find_by_key empty_nested priority_keys = None
  /\ find_event_list (JDict empty_nested) = Some []
  /\ first_nonempty_located empty_nested = None.
Proof. repeat split; reflexivity. Qed.

(** C4, amended.  For a mapping with no directly matching priority key,
    [find_event_list] goes through the values that are mappings or sequences
    in iteration order and returns the first result that is not "not found";
    that result may be the empty list. *)
Theorem locator_recursion (d : dict) :
  find_by_key d priority_keys = None ->
  find_event_list (JDict d) = first_located d.
Proof.
  intro Hnone. rewrite find_event_list_dict, Hnone. apply find_in_values_located.
Qed.

Lemma locator_recursion_witness :
  find_event_list (JDict nested_document)
  = Some [JDict [("onset", JInt 0); ("dur", JInt 1)]%string].
Proof.
  rewrite (locator_recursion nested_document eq_refl). reflexivity.
Defined.

(** C5, as stated, fails.  The list [[{}, 1]] is returned as it is, its
    first element being a mapping; its second element is not one. *)
Lemma mixed_list_counterexample :
  find_event_list (JList mixed_list) = Some mixed_list
  /\ all_mappings mixed_list = false.
Proof. split; reflexivity. Qed.

(** C5, amended.  Every list returned by [find_event_list], whether found
    directly, under a priority key or by recursion, is empty or has a
    mapping for its first element. *)
Theorem located_list_head (obj : json) (l : list json) :
  find_event_list obj = Some l -> head_is_mapping l = true.
Proof.
  revert l. induction obj as [ | b | z | f | s | l' IH | d IH ] using json_nested_ind;
    intro l; try discriminate.
  - apply looks_like_events_head.
  - rewrite find_event_list_dict.
    destruct (find_by_key d priority_keys) as [v|] eqn:E.
    + intro E'. injection E' as <-. apply find_by_key_head with d priority_keys, E.
    + clear E. induction IH as [|[k v] d Hv Hd IHd]; [discriminate|].
      cbn [find_in_values]. cbn [snd] in Hv.
      destruct v; try exact IHd;
        (destruct (find_event_list _) as [ev|] eqn:E; [|exact IHd]);
        intro E'; injection E' as <-; apply Hv; reflexivity.
Qed.

Lemma located_list_head_witness :
  head_is_mapping mixed_list = true.
Proof. apply (located_list_head (JList mixed_list)). reflexivity. Defined.

(* ================================================================== *)
(** ** Onset extraction *)
(* ================================================================== *)

Lemma first_present_alias ev keys :
  first_present ev keys
  = match first_alias ev keys with
    | Some (_, v) => v
    | None => JNull
    end
  /\ (forall k v, first_alias ev keys = Some (k, v) -> is_none v = false).
Proof.
  unfold first_alias.
  induction keys as [|key keys [IH1 IH2]]; [split; [reflexivity | discriminate]|].
  cbn [first_present find]. unfold present at 1 3.
  destruct (dict_get ev key) as [v|] eqn:E.
  - destruct (is_none v) eqn:En; cbn [negb].
    + split; [exact IH1 | exact IH2].
    + rewrite E. split; [reflexivity|].
      intros k v' E'. injection E' as <- <-. exact En.
  - split; [exact IH1 | exact IH2].
Qed.

Lemma first_alias_none ev keys :
  first_alias ev keys = None <-> forallb (fun k => negb (present ev k)) keys = true.
Proof.
  unfold first_alias. split.
  - intro E. apply forallb_forall. intros k Hk.
    destruct (find (present ev) keys) as [k'|] eqn:Ef.
    + apply find_some in Ef. destruct Ef as [_ Hp].
      unfold present in Hp. destruct (dict_get ev k'); discriminate.
    + rewrite (find_none _ _ Ef k Hk). reflexivity.
  - intro Hall. destruct (find (present ev) keys) as [k'|] eqn:Ef; [|reflexivity].
    apply find_some in Ef. destruct Ef as [Hin Hp].
    rewrite forallb_forall in Hall. specialize (Hall k' Hin).
    rewrite Hp in Hall. discriminate.
Qed.

(** C7.  [get_onset] looks the aliases up in the order [offset], [off],
    [onset], [start], [t], [time], [offset_q], [onset_q], [start_q], an alias
    being present when the record binds it to something other than [None];
    it is [float] of the value of the first alias present, and it is absent
    exactly when no alias is present or [float] fails on that value. *)
Theorem onset_extraction `{PyBuiltins} (ev : dict) :
  onset_keys
  = ["offset"; "off"; "onset"; "start"; "t"; "time";
     "offset_q"; "onset_q"; "start_q"]%string
  /\ get_onset ev
     = match first_alias ev onset_keys with
       | Some (_, v) => py_float v
       | None => None
       end
  /\ (first_alias ev onset_keys = None
      <-> forallb (fun k => negb (present ev k)) onset_keys = true)
  /\ (get_onset ev = None
      <-> first_alias ev onset_keys = None
          \/ exists k v, first_alias ev onset_keys = Some (k, v)
                         /\ py_float v = None).
Proof.
  destruct (first_present_alias ev onset_keys) as [Hv Hnn].
  assert (Hget : get_onset ev
                 = match first_alias ev onset_keys with
                   | Some (_, v) => py_float v
                   | None => None
                   end).
  { unfold get_onset. rewrite Hv.
    destruct (first_alias ev onset_keys) as [[k v]|]; [|reflexivity].
    destruct v; reflexivity. }
  split; [reflexivity|]. split; [exact Hget|]. split; [apply first_alias_none|].
  rewrite Hget. destruct (first_alias ev onset_keys) as [[k v]|].
  - split.
    + intro E. right. exists k, v. split; [reflexivity | exact E].
    + intros [E|(k' & v' & E & Ef)]; [discriminate|].
      injection E as <- <-. exact Ef.
  - split; [left; reflexivity | reflexivity].
Qed.

Lemma onset_extraction_witness :
  get_onset (H := no_float_strings) null_offset = Some (Fin 3)
  /\ first_alias null_offset onset_keys = Some ("onset"%string, JInt 3).
Proof.
  destruct (onset_extraction (H := no_float_strings) null_offset) as (_ & Hget & _).
  split; [rewrite Hget|]; reflexivity.
Defined.

(* ================================================================== *)
(** ** Validator *)
(* ================================================================== *)

Lemma abs_errors_in_range got expected indices :
  Forall (fun i => (i < List.length got)%nat /\ (i < List.length expected)%nat)
         indices ->
  abs_errors got expected indices
  = Some (map (fun i => fabs (fsub (nth i got NaN) (nth i expected NaN))) indices).
Proof.
  induction 1 as [|i indices [Hg He] Hrest IH]; [reflexivity|].
  cbn [abs_errors map]. rewrite IH.
  destruct (nth_error got i) as [g|] eqn:Eg;
    [|apply nth_error_None in Eg; lia].
  destruct (nth_error expected i) as [x|] eqn:Ex;
    [|apply nth_error_None in Ex; lia].
  rewrite (nth_error_nth _ _ NaN Eg), (nth_error_nth _ _ NaN Ex). reflexivity.
Qed.

Lemma prefix_errors_by_index got : forall expected,
  map (fun i => fabs (fsub (nth i got NaN) (nth i expected NaN)))
      (seq 0 (Nat.min (List.length got) (List.length expected)))
  = prefix_errors got expected.
Proof.
  unfold prefix_errors.
  induction got as [|g got IH]; intros [|x expected]; try reflexivity.
  cbn [List.length Nat.min seq map combine fst snd nth]. f_equal.
  rewrite <- seq_shift, map_map. apply IH.
Qed.

Lemma validate_expected_report got expected :
  validate_expected got expected
  = Some {| warning := if Nat.eqb (List.length got) (List.length expected)
                       then None
                       else Some (List.length got, List.length expected);
            max_err := max_default (prefix_errors got expected) (Fin 0) |}.
Proof.
  unfold validate_expected. rewrite abs_errors_in_range.
  - rewrite prefix_errors_by_index. reflexivity.
  - apply Forall_forall. intros i Hi. apply in_seq in Hi. lia.
Qed.

Lemma fold_py_max_member l : forall x,
  In (fold_left py_max l x) (x :: l).
Proof.
  induction l as [|y l IH]; intro x; [left; reflexivity|].
  cbn [fold_left]. destruct (IH (py_max x y)) as [E|Hin].
  - unfold py_max in E at 1. destruct (fltb x y).
    + right. left. exact E.
    + left. exact E.
  - right. right. exact Hin.
Qed.

Lemma py_max_upper x y z :
  is_nan x = false -> is_nan y = false -> is_nan z = false ->
  (fleb z x = true \/ fleb z y = true) -> fleb z (py_max x y) = true.
Proof. intros Hx Hy Hz [H|H]; revert H; forder. Qed.

Lemma py_max_not_nan x y :
  is_nan x = false -> is_nan y = false -> is_nan (py_max x y) = false.
Proof. forder. Qed.

Lemma fold_py_max_upper l : forall x,
  is_nan x = false -> Forall (fun y => is_nan y = false) l ->
  forall z, is_nan z = false -> (fleb z x = true \/ (In z l)) ->
  fleb z (fold_left py_max l x) = true.
Proof.
  induction l as [|y l IH]; intros x Hx Hl z Hz Hin.
  - destruct Hin as [H|[]]. exact H.
  - inversion Hl as [|? ? Hy Hl']; subst. cbn [fold_left].
    apply IH; auto using py_max_not_nan.
    destruct Hin as [H|[->|H]].
    + left. apply py_max_upper; auto.
    + left. apply py_max_upper; auto. right. apply fleb_refl, Hz.
    + right. exact H.
Qed.

Lemma abs_error_number g x :
  is_finite g = true -> is_finite x = true -> is_nan (fabs (fsub g x)) = false.
Proof. destruct g, x; try discriminate; reflexivity. Qed.

Lemma prefix_errors_numbers got expected :
  Forall (fun g => is_finite g = true) got ->
  Forall (fun x => is_finite x = true) expected ->
  Forall (fun e => is_nan e = false) (prefix_errors got expected).
Proof.
  unfold prefix_errors. intro Hg. revert expected.
  induction Hg as [|g got Hfg Hg IH]; intros expected He; [constructor|].
  destruct He as [|x expected Hfx He]; [constructor|].
  cbn [combine map fst snd]. constructor; [apply abs_error_number; assumption|].
  apply IH, He.
Qed.

(** C8.  [validate_expected] raises on no pair of sequences: every subscript
    it takes lies in the common prefix.  The number it reports is the builtin
    [max] of [abs(got[i] - expected[i])] over that prefix, of length
    [min(len(got), len(expected))], and 0 when either sequence is empty; the
    warning is printed exactly when the lengths differ, and nothing of the
    number depends on it.  For sequences of finite numbers the number
    reported bounds every difference of the prefix and is one of them. *)
Theorem validation_report (got expected : list pyfloat) :
  exists r : report,
    validate_expected got expected = Some r
    /\ (warning r = None <-> List.length got = List.length expected)
    /\ (List.length got <> List.length expected ->
        warning r = Some (List.length got, List.length expected))
    /\ max_err r = max_default (prefix_errors got expected) (Fin 0)
    /\ List.length (prefix_errors got expected)
       = Nat.min (List.length got) (List.length expected)
    /\ (got = [] \/ expected = [] -> max_err r = Fin 0)
    /\ (prefix_errors got expected <> [] ->
        In (max_err r) (prefix_errors got expected))
    /\ (Forall (fun g => is_finite g = true) got ->
        Forall (fun x => is_finite x = true) expected ->
        Forall (fun e => fleb e (max_err r) = true) (prefix_errors got expected)).
Proof.
  eexists. split; [apply validate_expected_report|]. cbn [warning max_err].
  repeat split.
  - destruct (Nat.eqb_spec (List.length got) (List.length expected));
      [auto | discriminate].
  - intro E. rewrite E, Nat.eqb_refl. reflexivity.
  - intro Hne. apply Nat.eqb_neq in Hne. rewrite Hne. reflexivity.
  - unfold prefix_errors. rewrite length_map, length_combine. reflexivity.
  - intros [->| ->]; [reflexivity|]. unfold prefix_errors.
    destruct got; reflexivity.
  - destruct (prefix_errors got expected) as [|e errs]; [congruence|].
    intros _. apply fold_py_max_member.
  - intros Hg He. pose proof (prefix_errors_numbers got expected Hg He) as Hnum.
    destruct (prefix_errors got expected) as [|e errs]; [constructor|].
    inversion Hnum as [|? ? Hne Hnerrs]; subst. cbn [max_default].
    apply Forall_forall. intros z Hz.
    assert (Hzn : is_nan z = false).
    { rewrite Forall_forall in Hnum. apply Hnum, Hz. }
    apply fold_py_max_upper; auto.
    destruct Hz as [->|Hz]; [left; apply fleb_refl, Hzn | right; exact Hz].
Qed.

Lemma validation_report_witness :
  validate_expected EXPECTED_NIDI_PANEL1_EIGHTH EXPECTED_NIDI_PANEL1_EIGHTH
  = Some {| warning := None; max_err := Fin 0 |}
  /\ Forall (fun e => fleb e (Fin 0) = true)
            (prefix_errors EXPECTED_NIDI_PANEL1_EIGHTH EXPECTED_NIDI_PANEL1_EIGHTH).
Proof.
  destruct (validation_report EXPECTED_NIDI_PANEL1_EIGHTH EXPECTED_NIDI_PANEL1_EIGHTH)
    as (r & Hr & _ & _ & _ & _ & _ & _ & Hmax).
  assert (E : r = {| warning := None; max_err := Fin 0 |}).
  { vm_compute in Hr. injection Hr as <-. reflexivity. }
  subst r. split; [reflexivity|].
  apply Hmax; repeat constructor.
Defined.

(* ================================================================== *)
(** * Further properties of the script *)
(* ================================================================== *)

(** ** Locator *)

Lemma dict_get_In d k v : dict_get d k = Some v -> In (k, v) d.
Proof.
  induction d as [|[k' v'] d IH]; simpl; [discriminate|].
  destruct (String.eqb k k') eqn:E.
  - apply String.eqb_eq in E. intro E'. injection E' as <-. left. congruence.
  - intro E'. right. apply IH, E'.
Qed.

Lemma looks_like_events_same v l : looks_like_events v = Some l -> v = JList l.
Proof.
  destruct v as [ | | | | | [|[ | | | | | | d] rest] | ]; simpl; try discriminate;
    intro E; injection E as <-; reflexivity.
Qed.

Lemma find_by_key_first d pre key post v l :
  dict_get d key = Some v ->
  looks_like_events v = Some l ->
  (forall k v', In k pre -> dict_get d k = Some v' -> looks_like_events v' = None) ->
  find_by_key d (pre ++ key :: post) = Some l.
Proof.
  intros Hget Hlook. induction pre as [|k pre IH]; intro Hpre; simpl.
  - rewrite Hget, Hlook. reflexivity.
  - assert (Hrest : find_by_key d (pre ++ key :: post) = Some l).
    { apply IH. intros k' v' Hin. apply Hpre. right. exact Hin. }
    destruct (dict_get d k) as [v'|] eqn:E; [|exact Hrest].
    rewrite (Hpre k v' (or_introl eq_refl) E). exact Hrest.
Qed.

(** X1.  In a mapping, the first key of the priority list
    [events, event_list, items, notes, data, sequence, segments] whose value
    is an empty sequence or a sequence that starts with a mapping decides:
    [find_event_list] returns that value, whatever the order of the mapping
    and whatever its other values hold.  A priority key bound to anything
    else is passed over. *)
Theorem priority_key_decides
    (d : dict) (pre post : list string) (key : string) (v : json) (l : list json) :
  priority_keys = pre ++ key :: post ->
  dict_get d key = Some v ->
  looks_like_events v = Some l ->
  (forall k v', In k pre -> dict_get d k = Some v' -> looks_like_events v' = None) ->
  find_event_list (JDict d) = Some l /\ v = JList l.
Proof.
  intros Hkeys Hget Hlook Hpre. split; [|apply looks_like_events_same, Hlook].
  rewrite find_event_list_dict, Hkeys.
  rewrite (find_by_key_first d pre key post v l Hget Hlook Hpre). reflexivity.
Qed.

Lemma priority_key_decides_witness :
  find_event_list (JDict keyed_document)
  = Some [JDict [("onset", JInt 0); ("dur", JInt 1)]%string].
Proof.
  apply (priority_key_decides keyed_document []
           ["event_list"; "items"; "notes"; "data"; "sequence"; "segments"]%string
           "events"%string
           (JList [JDict [("onset", JInt 0); ("dur", JInt 1)]%string])).
  - reflexivity.
  - reflexivity.
  - reflexivity.
  - intros k v' [].
Defined.

Lemma find_by_key_occurs d keys l :
  find_by_key d keys = Some l -> occurs_in (JList l) (JDict d).
Proof.
  induction keys as [|key keys IH]; simpl; [discriminate|].
  destruct (dict_get d key) as [v|] eqn:Eg; [|exact IH].
  destruct (looks_like_events v) as [l'|] eqn:El; [|exact IH].
  intro E. injection E as <-.
  apply looks_like_events_same in El. subst v.
  apply occurs_in_dict with key (JList l'); [apply dict_get_In, Eg | constructor].
Qed.

(** X2.  The locator finds, it does not build: a list returned by
    [find_event_list] is a sequence that occurs in the document, as the
    document itself or under its mappings. *)
Theorem located_list_occurs (obj : json) (l : list json) :
  find_event_list obj = Some l -> occurs_in (JList l) obj.
Proof.
  revert l. induction obj as [ | b | z | f | s | l' IH | d IH ] using json_nested_ind;
    intro l; try discriminate.
  - intro E. change (looks_like_events (JList l') = Some l) in E.
    apply looks_like_events_same in E. rewrite E. constructor.
  - rewrite find_event_list_dict.
    destruct (find_by_key d priority_keys) as [v|] eqn:E.
    + intro E'. injection E' as <-. apply find_by_key_occurs with priority_keys, E.
    + clear E. intro Hfound.
      assert (Hin : exists k x, In (k, x) d /\ occurs_in (JList l) x).
      { induction IH as [|[k v] d Hv Hd IHd]; [discriminate|].
        cbn [find_in_values] in Hfound. cbn [snd] in Hv.
        assert (Hlater : find_in_values d = Some l ->
                         exists k0 x, In (k0, x) ((k, v) :: d)
                                      /\ occurs_in (JList l) x).
        { intro E. destruct (IHd E) as (k' & x & Hx & Ho).
          exists k', x. split; [right; exact Hx | exact Ho]. }
        destruct v; try (apply Hlater, Hfound);
          (destruct (find_event_list _) as [ev|] eqn:E; [|apply Hlater, Hfound]);
          injection Hfound as ->; eexists; eexists;
          (split; [left; reflexivity | apply Hv; reflexivity]). }
      destruct Hin as (k & x & Hx & Ho). apply occurs_in_dict with k x; assumption.
Qed.

Lemma located_list_occurs_witness :
  occurs_in (JList [JDict [("onset", JInt 0); ("dur", JInt 1)]%string])
            (JDict nested_document).
Proof. apply located_list_occurs. reflexivity. Defined.

(** ** Classifier *)

Section Classifier.

Local Open Scope string_scope.

Lemma prefix_append p : forall s,
  String.prefix p s = true <-> exists post, s = p ++ post.
Proof.
  induction p as [|a p IH]; intro s.
  - split; [intros _; exists s; reflexivity | intros _; destruct s; reflexivity].
  - destruct s as [|b s]; simpl.
    + split; [discriminate | intros [post E]; discriminate].
    + destruct (ascii_dec a b) as [->|Hne].
      * rewrite IH. split; intros [post E]; exists post; [rewrite E; reflexivity|].
        injection E as E. exact E.
      * split; [discriminate|]. intros [post E]. injection E as E1 E2. congruence.
Qed.

Lemma contains_step needle s :
  contains needle s
  = if String.prefix needle s then true
    else match s with
         | EmptyString => false
         | String _ rest => contains needle rest
         end.
Proof. destruct s; reflexivity. Qed.

Lemma contains_substring needle : forall s,
  contains needle s = true <-> exists pre post, s = pre ++ needle ++ post.
Proof.
  intro s. split.
  - induction s as [|c s IH]; rewrite contains_step;
      destruct (String.prefix needle _) eqn:E.
    + intros _. apply prefix_append in E. destruct E as [post E].
      exists EmptyString, post. exact E.
    + discriminate.
    + intros _. apply prefix_append in E. destruct E as [post E].
      exists EmptyString, post. exact E.
    + intro H. destruct (IH H) as (pre & post & ->).
      exists (String c pre), post. reflexivity.
  - intros (pre & post & ->). induction pre as [|c pre IH].
    + rewrite contains_step.
      replace (String.prefix needle (EmptyString ++ needle ++ post)) with true; [reflexivity|].
      symmetry. apply prefix_append. exists post. reflexivity.
    + rewrite contains_step. destruct (String.prefix needle _); [reflexivity|].
      exact IH.
Qed.

Lemma lower_append a b : lower (a ++ b) = lower a ++ lower b.
Proof. induction a as [|c a IH]; simpl; [reflexivity | rewrite IH; reflexivity]. Qed.

(** X3.  What makes a record a rest, in full: one of the flags [is_rest],
    [isRest], [rest], [is_silence], [silence] is bound to a value Python
    takes for true; or the first of [type], [kind], [event_type],
    [eventType], [name] bound to a non-null value is a string whose lower
    case holds ["rest"] somewhere; or no pitch alias is bound to a non-null
    value and the first pitch-list alias so bound is an empty sequence.
    Nothing else does. *)
Theorem rest_classification (ev : dict) :
  is_rest_event ev = true
  <-> (exists k v, In k rest_flags /\ dict_get ev k = Some v /\ truthy v = true)
      \/ (exists s pre post,
            first_present ev type_keys = JStr s
            /\ lower s = pre ++ "rest" ++ post)
      \/ (first_present ev pitch_keys = JNull
          /\ first_present ev pitch_list_keys = JList []).
Proof.
  unfold is_rest_event. fold type_keys. fold pitch_keys. fold pitch_list_keys.
  destruct (existsb _ rest_flags) eqn:Eflag.
  - split; [intros _ | reflexivity]. left.
    apply existsb_exists in Eflag. destruct Eflag as (k & Hk & Hv).
    destruct (dict_get ev k) as [v|] eqn:E; [|discriminate].
    exists k, v. auto.
  - assert (Hnoflag : ~ exists k v, In k rest_flags /\ dict_get ev k = Some v
                                    /\ truthy v = true).
    { intros (k & v & Hk & Hg & Hv).
      assert (existsb (fun k => match dict_get ev k with
                                | Some v => truthy v
                                | None => false
                                end) rest_flags = true) as Hex.
      { apply existsb_exists. exists k. rewrite Hg. auto. }
      rewrite Hex in Eflag. discriminate. }
    assert (Hname : match first_present ev type_keys with
                    | JStr s => contains "rest" (lower s)
                    | _ => false
                    end = true
                    <-> exists s pre post,
                          first_present ev type_keys = JStr s
                          /\ lower s = pre ++ "rest" ++ post).
    { destruct (first_present ev type_keys) as [ | | | | s | | ];
        try (split; [discriminate | intros (s' & pre & post & E & _); discriminate]).
      rewrite contains_substring. split.
      - intros (pre & post & E). exists s, pre, post. auto.
      - intros (s' & pre & post & E & E'). injection E as <-. eauto. }
    destruct (match first_present ev type_keys with
              | JStr s => contains "rest" (lower s)
              | _ => false
              end) eqn:Ename.
    + split; [intros _ | reflexivity]. right. left. apply Hname. reflexivity.
    + assert (Hnoname : ~ exists s pre post,
                            first_present ev type_keys = JStr s
                            /\ lower s = pre ++ "rest" ++ post).
      { intro Hex. apply Hname in Hex. discriminate. }
      destruct (first_present ev pitch_keys) eqn:Ep; cbn [is_none];
        try (split; [discriminate | intros [H|[H|[H _]]]; [tauto | tauto | discriminate]]).
      destruct (first_present ev pitch_list_keys) as [ | | | | | [|x l] | ] eqn:El;
        try (split; [discriminate | intros [H|[H|[_ H]]]; [tauto | tauto | discriminate]]).
      split; [intros _; right; right; split; reflexivity | reflexivity].
Qed.

Lemma rest_classification_witness :
  is_rest_event flagged_rest = true.
Proof.
  apply (proj2 (rest_classification flagged_rest)). left.
  exists "is_rest", (JStr "false"). repeat split. left. reflexivity.
Defined.

(** X4.  The test on the name ignores letter case and position: when the
    first of [type], [kind], [event_type], [eventType], [name] bound to a
    non-null value is a string with [rest] in it, in any mix of upper and
    lower case, the record is a rest, whatever its pitch. *)
Theorem rest_by_name_any_case (ev : dict) (pre w post : string) :
  first_present ev type_keys = JStr (pre ++ w ++ post) ->
  lower w = "rest" ->
  is_rest_event ev = true.
Proof.
  intros Hname Hw. unfold is_rest_event. fold type_keys.
  destruct (existsb _ rest_flags); [reflexivity|]. rewrite Hname.
  replace (contains "rest" (lower (pre ++ w ++ post))) with true; [reflexivity|].
  symmetry. apply contains_substring. exists (lower pre), (lower post).
  rewrite !lower_append, Hw. reflexivity.
Qed.

Lemma rest_by_name_any_case_witness :
  is_rest_event named_rest = true.
Proof.
  apply (rest_by_name_any_case named_rest "Half " "REST" ""); reflexivity.
Defined.

End Classifier.

Lemma to_float_first_present `{PyBuiltins} ev keys :
  to_float (first_present ev keys) = alias_float ev keys.
Proof.
  unfold alias_float. destruct (first_present_alias ev keys) as [-> _].
  destruct (first_alias ev keys) as [[k v]|]; [|reflexivity].
  destruct v; reflexivity.
Qed.

(** X5.  [get_dur] asks the quarter-length aliases first: [float] of the
    value of the first of them that is present, when it succeeds, is the
    duration.  When no quarter alias is present, or [float] fails on the
    first one present, the later quarter aliases are not tried: the first
    eighth alias present is, and its value is halved.  The duration is absent
    exactly when both fail. *)
Theorem duration_extraction `{PyBuiltins} (ev : dict) :
  (forall dur, alias_float ev quarter_keys = Some dur -> get_dur ev = Some dur)
  /\ (forall q, alias_float ev quarter_keys = None ->
                alias_float ev eighth_keys = Some (Fin q) ->
                get_dur ev = Some (Fin (q / 2)))
  /\ (forall dur8, alias_float ev quarter_keys = None ->
                   alias_float ev eighth_keys = Some dur8 ->
                   get_dur ev = Some (fdiv dur8 (Fin 2)))
  /\ (get_dur ev = None
      <-> alias_float ev quarter_keys = None /\ alias_float ev eighth_keys = None).
Proof.
  assert (Hrun : get_dur ev
                 = match alias_float ev quarter_keys with
                   | Some dur => Some dur
                   | None =>
                       match alias_float ev eighth_keys with
                       | Some dur8 => Some (fdiv dur8 (Fin 2))
                       | None => None
                       end
                   end).
  { unfold get_dur. fold quarter_keys. fold eighth_keys.
    rewrite !to_float_first_present. reflexivity. }
  rewrite Hrun. repeat split.
  - intros dur ->. reflexivity.
  - intros q -> ->. reflexivity.
  - intros dur8 -> ->. reflexivity.
  - destruct (alias_float ev quarter_keys); [discriminate|].
    destruct (alias_float ev eighth_keys); [discriminate | reflexivity].
  - destruct (alias_float ev quarter_keys); [discriminate|].
    destruct (alias_float ev eighth_keys); [discriminate | reflexivity].
  - intros [-> ->]. reflexivity.
Qed.

Lemma duration_extraction_witness :
  first_alias mixed_durations quarter_keys = Some ("dur"%string, JStr "long")
  /\ get_dur (H := no_float_strings) mixed_durations = Some (Fin (3 # 2)).
Proof.
  split; [reflexivity|].
  destruct (duration_extraction (H := no_float_strings) mixed_durations)
    as (_ & Hhalf & _).
  apply (Hhalf 3); reflexivity.
Defined.

(** ** Coalescing and extraction *)

(** X6.  [coalesce_intervals] makes up no endpoint: the start of every
    interval it returns is the start of an interval it was given, and the end
    is the end of one.  It returns no more intervals than it was given, and
    none exactly when given none. *)
Theorem coalesce_endpoints (l : list interval) (eps : pyfloat) :
  Forall (fun iv => (exists x, In x l /\ fst x = fst iv)
                    /\ (exists y, In y l /\ snd y = snd iv))
         (coalesce_intervals l eps)
  /\ (List.length (coalesce_intervals l eps) <= List.length l)%nat
  /\ (coalesce_intervals l eps = [] <-> l = []).
Proof.
  repeat split.
  - apply coalesce_preserves.
    + intros ps pe s e [Hs [y [Hy Ey]]] [_ [y' [Hy' Ey']]]. split; [exact Hs|].
      unfold py_max. cbn [snd] in *. destruct (fltb pe e); eauto.
    + apply Forall_forall. intros iv Hin. split; exists iv; auto.
  - rewrite coalesce_sweep, <- (sorted_length l).
    destruct (sorted l) as [|first rest]; simpl; [lia | apply sweep_length].
  - apply coalesce_nil_inv.
  - intros ->. reflexivity.
Qed.

Section Extraction.

Context `{PyBuiltins}.

Lemma explicit_rests_wf events :
  Forall nan_free (explicit_rests events) -> Forall wf (explicit_rests events).
Proof.
  intro Hfree. rewrite Forall_forall in *. intros iv Hin.
  destruct (explicit_rests_form events iv Hin) as (onset & dur & -> & Hlong).
  apply explicit_rest_wf; [exact Hlong | apply Hfree, Hin].
Qed.

Lemma counted_once events :
  (List.length (explicit_rests events) + List.length (active_spans events)
   <= List.length (filter is_dict events))%nat.
Proof.
  induction events as [|ev events IH]; [simpl; lia|].
  rewrite explicit_rests_cons, active_spans_cons.
  destruct ev; cbn [explicit_rest_of active_span_of filter is_dict]; try exact IH.
  destruct (is_rest_event d).
  - destruct (get_onset d); [|simpl; lia].
    destruct (get_dur d) as [dur|]; [|simpl; lia].
    destruct (fltb EPS dur); simpl; lia.
  - destruct (get_onset d); [|simpl; lia].
    destruct (get_dur d) as [dur|]; [|simpl; lia].
    destruct (fltb dur (Fin 0)); simpl; lia.
Qed.

(** X7.  No record counts twice: the explicit rests and the active spans
    together are no more than the mappings of the event list.  A rest is
    never an active span, whatever its duration, so a rest no longer than
    [EPS] is dropped from both; a record that is not a rest is never an
    explicit rest. *)
Theorem each_event_counted_once (events : list json) :
  (List.length (explicit_rests events) + List.length (active_spans events)
   <= List.length (filter is_dict events))%nat
  /\ (forall ev, is_rest_event ev = true -> active_spans [JDict ev] = [])
  /\ (forall ev, is_rest_event ev = false -> explicit_rests [JDict ev] = [])
  /\ (forall ev dur, is_rest_event ev = true -> get_dur ev = Some dur ->
                     fltb EPS dur = false ->
                     explicit_rests [JDict ev] = []
                     /\ active_spans [JDict ev] = []).
Proof.
  split; [apply counted_once|]. split; [|split].
  - intros ev Hrest. cbn [active_spans]. rewrite Hrest. reflexivity.
  - intros ev Hrest. cbn [explicit_rests]. rewrite Hrest. reflexivity.
  - intros ev dur Hrest Hdur Hshort. split.
    + cbn [explicit_rests]. rewrite Hrest, Hdur.
      destruct (get_onset ev); [rewrite Hshort|]; reflexivity.
    + cbn [active_spans]. rewrite Hrest. reflexivity.
Qed.

(** X8.  With [require_explicit] set nothing is inferred: the function
    leaves by its first [return] with the coalesced explicit rests, which is
    the empty list when there is no explicit rest, whatever the active
    events.  When there is an explicit rest the flag changes nothing. *)
Theorem require_explicit_disables_inference (events : list json) :
  extract_rest_intervals_at events true
  = (ReturnExplicit, coalesce_intervals (explicit_rests events) EPS)
  /\ (explicit_rests events = [] -> extract_rest_intervals events true = [])
  /\ (explicit_rests events <> [] ->
      extract_rest_intervals_at events false
      = extract_rest_intervals_at events true).
Proof.
  assert (Hrun : extract_rest_intervals_at events true
                 = (ReturnExplicit, coalesce_intervals (explicit_rests events) EPS)).
  { unfold extract_rest_intervals_at. rewrite orb_true_r. reflexivity. }
  split; [exact Hrun|]. split.
  - intro Hnone. unfold extract_rest_intervals. rewrite Hrun, Hnone. reflexivity.
  - intro Hsome. rewrite Hrun. unfold extract_rest_intervals_at.
    destruct (coalesce_intervals (explicit_rests events) EPS) eqn:E; [|reflexivity].
    apply coalesce_nil_inv in E. contradiction.
Qed.

(** X9.  What [extract_rest_intervals] returns is a coalesced interval set:
    sorted by start, every start beyond the previous end plus [EPS], and
    left unchanged by coalescing it again.  This holds on both paths,
    provided no explicit rest interval has NaN for an endpoint. *)
Theorem extraction_returns_coalesced (events : list json) (require_explicit : bool) :
  Forall nan_free (explicit_rests events) ->
  starts_sorted (extract_rest_intervals events require_explicit)
  /\ separated EPS (extract_rest_intervals events require_explicit)
  /\ coalesce_intervals (extract_rest_intervals events require_explicit) EPS
     = extract_rest_intervals events require_explicit.
Proof.
  intro Hfree. apply explicit_rests_wf in Hfree.
  assert (Hshape : forall l, Forall wf l ->
            starts_sorted (coalesce_intervals l EPS)
            /\ separated EPS (coalesce_intervals l EPS)
            /\ coalesce_intervals (coalesce_intervals l EPS) EPS
               = coalesce_intervals l EPS).
  { intros l Hl. destruct (coalesce_shape l EPS eq_refl Hl) as (Hw & Hs & Hsep).
    repeat split; auto.
    apply coalesce_idempotent; [reflexivity | apply wf_all_nan_free, Hl]. }
  unfold extract_rest_intervals, extract_rest_intervals_at.
  destruct (orb _ require_explicit); cbn [snd].
  - apply Hshape, Hfree.
  - destruct (active_spans events); cbn [snd].
    + repeat split; constructor.
    + apply Hshape, inferred_gaps_wf.
Qed.

Lemma inferred_gaps_length spans :
  (List.length (inferred_gaps spans) <= Nat.pred (List.length spans))%nat.
Proof.
  induction spans as [|[s1 e1] spans IH]; [simpl; lia|].
  destruct spans as [|[s2 e2] later]; [simpl; lia|].
  rewrite inferred_gaps_step. unfold interval in *.
  cbn [List.length Nat.pred] in *.
  destruct (fltb EPS (fsub s2 e1)); cbn [List.length]; lia.
Qed.

(** X10.  Inference finds fewer rests than there are active spans: from [n]
    active spans, at most [n - 1] rests, and none from a single span or from
    no span at all. *)
Theorem inferred_rests_count (events : list json) :
  explicit_rests events = [] ->
  (List.length (extract_rest_intervals events false)
   <= Nat.pred (List.length (active_spans events)))%nat.
Proof.
  intro Hnone. unfold extract_rest_intervals, extract_rest_intervals_at.
  rewrite Hnone. change (coalesce_intervals [] EPS) with (@nil interval). cbn [orb].
  destruct (active_spans events) as [|sp spans] eqn:E; cbn [snd]; [simpl; lia|].
  pose proof (coalesce_length (inferred_gaps (coalesce_intervals (sp :: spans) EPS)) EPS).
  pose proof (inferred_gaps_length (coalesce_intervals (sp :: spans) EPS)).
  pose proof (coalesce_length (sp :: spans) EPS).
  lia.
Qed.

End Extraction.

Lemma each_event_counted_once_witness :
  explicit_rests (H := no_float_strings) short_rest_and_note = []
  /\ active_spans (H := no_float_strings) short_rest_and_note = [(Fin 1, Fin 2)].
Proof.
  destruct (each_event_counted_once (H := no_float_strings) short_rest_and_note)
    as (_ & _ & _ & Hshort).
  destruct (Hshort [("rest", JBool true); ("onset", JInt 0); ("dur", JInt 0)]%string
              (Fin 0) eq_refl eq_refl eq_refl) as [_ _].
  split; reflexivity.
Defined.

Lemma require_explicit_disables_inference_witness :
  extract_rest_intervals (H := no_float_strings) two_notes true = []
  /\ extract_rest_intervals (H := no_float_strings) two_notes false
     = [(Fin 1, Fin 2)].
Proof.
  destruct (require_explicit_disables_inference (H := no_float_strings) two_notes)
    as (_ & Hnone & _).
  split; [apply Hnone|]; reflexivity.
Defined.

Lemma extraction_returns_coalesced_witness :
  coalesce_intervals
    (extract_rest_intervals (H := no_float_strings) three_notes false) EPS
  = extract_rest_intervals (H := no_float_strings) three_notes false.
Proof.
  apply (extraction_returns_coalesced (H := no_float_strings) three_notes false).
  constructor.
Defined.

Lemma inferred_rests_count_witness :
  (List.length (extract_rest_intervals (H := no_float_strings) three_notes false)
   <= 2)%nat.
Proof.
  apply (inferred_rests_count (H := no_float_strings) three_notes). reflexivity.
Defined.

(** ** Inferred rests and the active spans *)

Lemma gap_strict e1 s2 : fltb EPS (fsub s2 e1) = true -> fltb e1 s2 = true.
Proof. unfold fsub. forder. Qed.

Lemma merge_strict ps pe s e :
  fltb ps pe = true -> fltb s e = true -> fltb ps (py_max pe e) = true.
Proof. forder. Qed.

(** Each gap kept runs from the end of a span to the start of a span, and
    its start lies before its end. *)
Lemma inferred_gaps_between spans :
  Forall (fun g => (exists c, In c spans /\ snd c = fst g)
                   /\ (exists c, In c spans /\ fst c = snd g)
                   /\ fltb (fst g) (snd g) = true)
         (inferred_gaps spans).
Proof.
  induction spans as [|[s1 e1] spans IH]; [constructor|].
  destruct spans as [|[s2 e2] later]; [constructor|].
  assert (Hlater : Forall (fun g => (exists c, In c ((s1, e1) :: (s2, e2) :: later)
                                               /\ snd c = fst g)
                                    /\ (exists c, In c ((s1, e1) :: (s2, e2) :: later)
                                                  /\ fst c = snd g)
                                    /\ fltb (fst g) (snd g) = true)
                          (inferred_gaps ((s2, e2) :: later))).
  { eapply Forall_impl; [|exact IH].
    intros g ((c & Hc & Ec) & (c' & Hc' & Ec') & Hlt).
    repeat split; [exists c | exists c' | exact Hlt]; split; auto; right; assumption. }
  rewrite inferred_gaps_step. destruct (fltb EPS (fsub s2 e1)) eqn:E; [|exact Hlater].
  constructor; [|exact Hlater]. cbn [fst snd]. repeat split.
  - exists (s1, e1). split; [left; reflexivity | reflexivity].
  - exists (s2, e2). split; [right; left; reflexivity | reflexivity].
  - apply gap_strict, E.
Qed.

(** The endpoints of what [coalesce_intervals] returns are endpoints of what
    it was given. *)
Lemma coalesce_from_input l eps :
  Forall (fun iv => (exists x, In x l /\ fst x = fst iv)
                    /\ (exists y, In y l /\ snd y = snd iv))
         (coalesce_intervals l eps).
Proof.
  apply coalesce_preserves.
  - intros ps pe s e [Hs [y [Hy Ey]]] [_ [y' [Hy' Ey']]]. split; [exact Hs|].
    unfold py_max. cbn [snd] in *. destruct (fltb pe e); eauto.
  - apply Forall_forall. intros iv Hin. split; exists iv; auto.
Qed.

Section Silence.

Context `{PyBuiltins}.

Lemma extract_inferred events :
  explicit_rests events = [] ->
  extract_rest_intervals events false
  = coalesce_intervals
      (inferred_gaps (coalesce_intervals (active_spans events) EPS)) EPS.
Proof.
  intro Hnone. unfold extract_rest_intervals, extract_rest_intervals_at.
  rewrite Hnone. change (coalesce_intervals [] EPS) with (@nil interval). cbn [orb].
  destruct (active_spans events); reflexivity.
Qed.

(** X11.  Inferred rests run from sound to sound: when no explicit rest is
    found, every rest returned begins at the end of an active span, ends at
    the start of an active span, and begins before it ends. *)
Theorem inferred_rests_bounded (events : list json) (r : interval) :
  explicit_rests events = [] ->
  In r (extract_rest_intervals events false) ->
  (exists sp, In sp (active_spans events) /\ snd sp = fst r)
  /\ (exists sp, In sp (active_spans events) /\ fst sp = snd r)
  /\ fltb (fst r) (snd r) = true.
Proof.
  intros Hnone Hr. rewrite (extract_inferred events Hnone) in Hr.
  set (spans := coalesce_intervals (active_spans events) EPS) in *.
  pose proof (inferred_gaps_between spans) as Hgaps.
  pose proof (coalesce_from_input (active_spans events) EPS) as Hspans.
  fold spans in Hspans.
  pose proof (coalesce_from_input (inferred_gaps spans) EPS) as Hrests.
  rewrite Forall_forall in Hgaps, Hspans, Hrests.
  destruct (Hrests r Hr) as ((g & Hg & Eg) & (g' & Hg' & Eg')).
  destruct (Hgaps g Hg) as ((c & Hc & Ec) & _ & _).
  destruct (Hgaps g' Hg') as (_ & (c' & Hc' & Ec') & _).
  destruct (Hspans c Hc) as (_ & (sp & Hsp & Esp)).
  destruct (Hspans c' Hc') as ((sp' & Hsp' & Esp') & _).
  repeat split.
  - exists sp. split; [exact Hsp | congruence].
  - exists sp'. split; [exact Hsp' | congruence].
  - assert (Hstrict : Forall (fun iv => fltb (fst iv) (snd iv) = true)
                             (coalesce_intervals (inferred_gaps spans) EPS)).
    { apply coalesce_preserves; [intros ps pe s e; apply merge_strict|].
      apply Forall_forall. intros x Hx. apply (Hgaps x Hx). }
    rewrite Forall_forall in Hstrict. apply Hstrict, Hr.
Qed.

End Silence.

Lemma inferred_rests_bounded_witness :
  (exists sp, In sp (active_spans (H := no_float_strings) three_notes)
              /\ snd sp = Fin 2)
  /\ (exists sp, In sp (active_spans (H := no_float_strings) three_notes)
                 /\ fst sp = Fin 4)
  /\ fltb (Fin 2) (Fin 4) = true.
Proof.
  apply (inferred_rests_bounded (H := no_float_strings) three_notes (Fin 2, Fin 4)).
  - reflexivity.
  - vm_compute. left. reflexivity.
Defined.

(** ** Unit converter *)

Lemma round_half_even_nonneg q : 0 <= q -> 0 <= inject_Z (Qround_half_even q).
Proof.
  intro Hq. assert (Hf : (0 <= Qfloor q)%Z).
  { change 0%Z with (Qfloor 0). apply Qfloor_resp_le, Hq. }
  assert (Hz : (0 <= Qround_half_even q)%Z).
  { unfold Qround_half_even.
    destruct (Qcompare _ _); [destruct (Z.even _)| |]; lia. }
  change 0 with (inject_Z 0). rewrite <- Zle_Qle. exact Hz.
Qed.

Lemma round6_nonneg a :
  0 <= a -> exists d, round6 (Fin a) = Fin d /\ 0 <= d.
Proof.
  intro Ha. unfold round6. eexists. split; [reflexivity|].
  pose proof (round_half_even_nonneg (a * 1000000)) as Hn.
  set (z := Qround_half_even (a * 1000000)) in *.
  assert (E : Qred (z # 1000000) == inject_Z z * (1 # 1000000)).
  { rewrite Qred_correct. unfold Qeq, inject_Z, Qmult. simpl. lia. }
  rewrite E. assert (0 <= inject_Z z) by (apply Hn; lra). lra.
Qed.

(** X12.  [intervals_to_eighth_durations] gives one duration for each
    interval, and for finite intervals with [start <= end] no duration is
    negative, nor NaN. *)
Theorem eighth_durations_not_negative (l : list interval) :
  List.length (intervals_to_eighth_durations l) = List.length l
  /\ (Forall finite_interval l -> Forall wf l ->
      Forall (fun d => fleb (Fin 0) d = true) (intervals_to_eighth_durations l)).
Proof.
  unfold intervals_to_eighth_durations. split; [apply length_map|].
  intros Hfin Hwf. induction l as [|[s e] l IH]; [constructor|].
  inversion Hfin as [|? ? [Hs He] Hfin']; subst.
  inversion Hwf as [|? ? Hse Hwf']; subst.
  cbn [map]. constructor; [|apply IH; assumption].
  destruct s as [s| | |]; try discriminate.
  destruct e as [e| | |]; try discriminate.
  unfold wf in Hse. cbn in Hse. apply Qleb_true in Hse.
  cbn [fsub fneg fadd fmul fst snd].
  destruct (round6_nonneg ((e + - s) * 2)) as (d & -> & Hpos); [lra|].
  cbn [fleb]. apply Qleb_true, Hpos.
Qed.

Lemma eighth_durations_not_negative_witness :
  Forall (fun d => fleb (Fin 0) d = true)
         (intervals_to_eighth_durations [(Fin 0, Fin (5 # 4))]).
Proof.
  apply (proj2 (eighth_durations_not_negative [(Fin 0, Fin (5 # 4))]));
    repeat constructor.
Defined.

(** ** Validator, further *)

Lemma combine_finite got expected :
  Forall (fun g => is_finite g = true) got ->
  Forall (fun x => is_finite x = true) expected ->
  Forall finite_pair (combine got expected).
Proof.
  intro Hg. revert expected. induction Hg as [|g got Hfg Hg IH]; intros expected He;
    [constructor|].
  destruct He as [|x expected Hfx He]; [constructor|].
  cbn [combine]. constructor; [split; assumption | apply IH, He].
Qed.

Lemma abs_error_zero p :
  finite_pair p ->
  (feqb (abs_error p) (Fin 0) = true <-> feqb (fst p) (snd p) = true).
Proof.
  destruct p as [[g| | |] [x| | |]]; intros [Hg Hx]; try discriminate.
  unfold abs_error. cbn [fsub fneg fadd fabs feqb fst snd]. rewrite !Qeqb_true. split.
  - apply Qabs_case; intros; lra.
  - intro E. apply Qabs_case; intros; lra.
Qed.

Lemma prefix_errors_map got expected :
  prefix_errors got expected = map abs_error (combine got expected).
Proof. reflexivity. Qed.

Lemma max_default_zero pairs :
  Forall finite_pair pairs ->
  Forall (fun p => feqb (fst p) (snd p) = true) pairs ->
  feqb (max_default (map abs_error pairs) (Fin 0)) (Fin 0) = true.
Proof.
  intros Hfin Hall. destruct pairs as [|p pairs]; [reflexivity|].
  cbn [map max_default].
  pose proof (fold_py_max_member (map abs_error pairs) (abs_error p)) as Hmem.
  change (abs_error p :: map abs_error pairs)
    with (map abs_error (p :: pairs)) in Hmem.
  apply in_map_iff in Hmem. destruct Hmem as (q & <- & Hq).
  rewrite Forall_forall in Hall, Hfin.
  apply abs_error_zero; [apply Hfin, Hq | apply Hall, Hq].
Qed.

(** X13.  For sequences of finite numbers that agree, number for number, on
    their common prefix, the error [validate_expected] computes is zero,
    whatever the two lengths are. *)
Theorem check_zero_on_agreement (got expected : list pyfloat) (r : report) :
  Forall (fun g => is_finite g = true) got ->
  Forall (fun x => is_finite x = true) expected ->
  validate_expected got expected = Some r ->
  Forall (fun p => same_number (fst p) (snd p)) (combine got expected) ->
  same_number (max_err r) (Fin 0).
Proof.
  intros Hg He Hr Hall. rewrite validate_expected_report in Hr. injection Hr as <-.
  cbn [max_err]. unfold same_number. rewrite prefix_errors_map.
  apply max_default_zero; [apply combine_finite; assumption | exact Hall].
Qed.

Lemma combine_app_l {A B : Type} (l1 extra : list A) : forall l2 : list B,
  (List.length l2 <= List.length l1)%nat ->
  combine (l1 ++ extra) l2 = combine l1 l2.
Proof.
  induction l1 as [|a l1 IH]; intros [|b l2] Hlen; cbn in *; try reflexivity; try lia.
  - destruct extra; reflexivity.
  - f_equal. apply IH. lia.
Qed.

Lemma combine_app_r {A B : Type} (l2 extra : list B) : forall l1 : list A,
  (List.length l1 <= List.length l2)%nat ->
  combine l1 (l2 ++ extra) = combine l1 l2.
Proof.
  induction l2 as [|b l2 IH]; intros [|a l1] Hlen; cbn in *; try reflexivity; try lia.
  f_equal. apply IH. lia.
Qed.

(** X14.  Only the common prefix is compared: what [got] holds beyond the
    length of [expected], or [expected] beyond the length of [got], changes
    nothing of the error reported.  A sequence that is too long or too short
    is told by the warning alone. *)
Theorem check_reads_prefix_only (got expected extra : list pyfloat) :
  ((List.length expected <= List.length got)%nat ->
   option_map max_err (validate_expected (got ++ extra) expected)
   = option_map max_err (validate_expected got expected))
  /\ ((List.length got <= List.length expected)%nat ->
      option_map max_err (validate_expected got (expected ++ extra))
      = option_map max_err (validate_expected got expected)).
Proof.
  rewrite !validate_expected_report. cbn [option_map max_err].
  unfold prefix_errors. split; intro Hlen.
  - rewrite combine_app_l; [reflexivity | exact Hlen].
  - rewrite combine_app_r; [reflexivity | exact Hlen].
Qed.

Lemma check_zero_on_agreement_witness :
  same_number (max_err {| warning := None; max_err := Fin 0 |}) (Fin 0).
Proof.
  apply (check_zero_on_agreement EXPECTED_NIDI_PANEL1_EIGHTH
           EXPECTED_NIDI_PANEL1_EIGHTH
           {| warning := None; max_err := Fin 0 |}
           ltac:(repeat constructor) ltac:(repeat constructor) eq_refl).
  repeat constructor.
Defined.

Lemma check_reads_prefix_only_witness :
  option_map max_err (validate_expected [Fin 3; Fin 9] [Fin 3])
  = option_map max_err (validate_expected [Fin 3] [Fin 3]).
Proof.
  apply (proj1 (check_reads_prefix_only [Fin 3] [Fin 3] [Fin 9])).
  apply le_n.
Defined.

(** ** Orchestrator *)

Section Orchestrator.

Context `{PyBuiltins}.

Local Open Scope string_scope.

(** X15.  How a run ends depends on the locator alone.  It stops with
    [SystemExit] exactly when a document has no event list, the message
    naming Lumen when Lumen's is missing, whether or not Nidi's is too, and
    Nidi otherwise.  When both lists are found it runs to its end: no flag
    and no outcome of the validation stops it, and nothing is raised apart
    from the two [SystemExit]. *)
Theorem main_exit_behaviour
    (lumen_obj nidi_obj : json) (require_explicit check_nidi_panel1 : bool) :
  (find_event_list lumen_obj = None ->
   main lumen_obj nidi_obj require_explicit check_nidi_panel1
   = SystemExit "Could not find an event list in Lumen JSON.")
  /\ (find_event_list lumen_obj <> None -> find_event_list nidi_obj = None ->
      main lumen_obj nidi_obj require_explicit check_nidi_panel1
      = SystemExit "Could not find an event list in Nidi JSON.")
  /\ (find_event_list lumen_obj <> None -> find_event_list nidi_obj <> None ->
      exists o, main lumen_obj nidi_obj require_explicit check_nidi_panel1
                = Completed o)
  /\ main lumen_obj nidi_obj require_explicit check_nidi_panel1 <> Uncaught.
Proof.
  unfold main.
  destruct (find_event_list lumen_obj) as [lumen_events|];
    destruct (find_event_list nidi_obj) as [nidi_events|];
    repeat split; try congruence; try discriminate.
  - intros _ _. destruct check_nidi_panel1; [|eauto].
    rewrite validate_expected_report. eauto.
  - destruct check_nidi_panel1; [|discriminate].
    rewrite validate_expected_report. discriminate.
Qed.

(** X16.  A run that completes saves, for each document, one eighth
    duration for each rest interval.  The validation looks at Nidi's
    durations only and is there exactly when asked for; asking for it or not
    changes nothing of what is saved. *)
Theorem main_payload
    (lumen_obj nidi_obj : json) (require_explicit check_nidi_panel1 : bool)
    (o : output) :
  main lumen_obj nidi_obj require_explicit check_nidi_panel1 = Completed o ->
  List.length (rests_eighth (lumen o))
  = List.length (rest_intervals_quarter (lumen o))
  /\ List.length (rests_eighth (nidi o))
     = List.length (rest_intervals_quarter (nidi o))
  /\ (nidi_check o = None <-> check_nidi_panel1 = false)
  /\ (forall r, nidi_check o = Some r ->
                validate_expected (rests_eighth (nidi o))
                                  EXPECTED_NIDI_PANEL1_EIGHTH = Some r)
  /\ (exists o', main lumen_obj nidi_obj require_explicit (negb check_nidi_panel1)
                 = Completed o'
                 /\ lumen o' = lumen o /\ nidi o' = nidi o).
Proof.
  unfold main.
  destruct (find_event_list lumen_obj) as [lumen_events|]; [|discriminate].
  destruct (find_event_list nidi_obj) as [nidi_events|]; [|discriminate].
  unfold intervals_to_eighth_durations.
  destruct check_nidi_panel1; cbn [negb].
  - destruct (validate_expected _ EXPECTED_NIDI_PANEL1_EIGHTH) as [r|] eqn:E;
      [|discriminate].
    intro Ho. injection Ho as <-. cbn [lumen nidi nidi_check rests_eighth
                                        rest_intervals_quarter].
    rewrite !length_map. repeat split; try discriminate.
    + intros r' Hr'. injection Hr' as <-. exact E.
    + eexists. split; [reflexivity|]. split; reflexivity.
  - intro Ho. injection Ho as <-. cbn [lumen nidi nidi_check rests_eighth
                                        rest_intervals_quarter].
    rewrite !length_map. repeat split; try discriminate.
    fold (intervals_to_eighth_durations
            (extract_rest_intervals nidi_events require_explicit)).
    rewrite validate_expected_report.
    eexists. split; [reflexivity|]. split; reflexivity.
Qed.

End Orchestrator.

Lemma main_payload_witness :
  exists o,
    main (H := no_float_strings) (JDict nested_document) (JList two_notes)
         false true = Completed o
    /\ List.length (rests_eighth (nidi o))
       = List.length (rest_intervals_quarter (nidi o))
    /\ rests_eighth (nidi o) = [Fin 2].
Proof.
  eexists. split; [reflexivity|]. split; [|reflexivity].
  eapply (main_payload (H := no_float_strings) (JDict nested_document)
            (JList two_notes) false true).
  reflexivity.
Defined.

Lemma main_exit_behaviour_witness :
  main (H := no_float_strings) (JInt 1) (JStr "x") false true
  = SystemExit "Could not find an event list in Lumen JSON.".
Proof.
  apply (proj1 (main_exit_behaviour (H := no_float_strings)
                  (JInt 1) (JStr "x") false true)).
  reflexivity.
Defined.
